(** * pdf-ai-context-extractor: a shallow embedding and its properties

    The development follows the Python sources
      - [pdf_ai_context_extractor/core.py]            (strategy selection),
      - [pdf_ai_context_extractor/locale_detector.py] (locale registry,
        detection, amount and date normalisation),
      - [pdf_ai_context_extractor/parsers.py]         (bank statement parser).

    Python strings are sequences of Unicode code points; exceptions are an
    explicit result type; the external extraction engine is an oracle from
    extraction mode to its outcome. *)

From Stdlib Require Import String Ascii DecimalString.
From Stdlib Require Import List NArith ZArith QArith Qround Bool Lia.
Import ListNotations.
Close Scope Q_scope.

Set Implicit Arguments.

(* ===================================================================== *)
(** * Python values: strings, exceptions, the builtins the sources call   *)
(* ===================================================================== *)

Module Py.

(** A Python [str] is a sequence of Unicode code points. *)
Definition char := N.
Definition str := list char.

(** ** String literals

    Rocq string literals are byte strings; the file is UTF-8, so a literal
    is decoded to the code points it spells. *)

Fixpoint bytes_of (s : string) : list N :=
  match s with
  | EmptyString => []
  | String a s' => N_of_ascii a :: bytes_of s'
  end.

Fixpoint utf8_decode (bs : list N) : str :=
  match bs with
  | [] => []
  | b0 :: r0 =>
      if (b0 <? 0x80)%N then b0 :: utf8_decode r0
      else match r0 with
           | [] => []
           | b1 :: r1 =>
               if (b0 <? 0xE0)%N
               then ((b0 - 0xC0) * 64 + (b1 - 0x80))%N :: utf8_decode r1
               else match r1 with
                    | [] => []
                    | b2 :: r2 =>
                        if (b0 <? 0xF0)%N
                        then ((b0 - 0xE0) * 4096 + (b1 - 0x80) * 64
                              + (b2 - 0x80))%N :: utf8_decode r2
                        else match r2 with
                             | [] => []
                             | b3 :: r3 =>
                                 ((b0 - 0xF0) * 262144 + (b1 - 0x80) * 4096
                                  + (b2 - 0x80) * 64 + (b3 - 0x80))%N
                                 :: utf8_decode r3
                             end
                    end
           end
  end.

(** [u "text"] is the Python string literal ['text']. *)
Definition u (s : string) : str := utf8_decode (bytes_of s).

Definition str_eqb (a b : str) : bool :=
  if list_eq_dec N.eq_dec a b then true else false.

(** ** Exceptions *)

Inductive exn : Type :=
| ValueError
| KeyError
| ZeroDivisionError
| OSError                     (* a write into a directory that is missing *)
| EngineError (code : nat).   (* any [Exception] raised by the engine *)

Inductive result (A : Type) : Type :=
| Ok (a : A)
| Raise (e : exn).
Arguments Ok {A} a.
Arguments Raise {A} e.

Definition bind {A B} (m : result A) (f : A -> result B) : result B :=
  match m with
  | Ok a => f a
  | Raise e => Raise e
  end.

(** [try: body / except Exception: handler] *)
Definition try_except {A} (body : result A) (handler : exn -> result A)
  : result A :=
  match body with
  | Ok a => Ok a
  | Raise e => handler e
  end.

(** ** Unicode tables of the interpreter

    [str.isspace], [str.strip] and the regular expression class [\s] share
    one whitespace set; [\d] and [float] share the decimal digits (general
    category Nd), which come in runs of ten starting at a zero digit
    (Unicode 14.0, as shipped with CPython 3.11). *)

Definition is_space (c : char) : bool :=
  ((0x09 <=? c) && (c <=? 0x0D) || (0x1C <=? c) && (c <=? 0x20)
   || (c =? 0x85) || (c =? 0xA0) || (c =? 0x1680)
   || (0x2000 <=? c) && (c <=? 0x200A)
   || (c =? 0x2028) || (c =? 0x2029) || (c =? 0x202F) || (c =? 0x205F)
   || (c =? 0x3000))%N.

Definition nd_zeros : list N :=
  [0x30; 0x660; 0x6f0; 0x7c0; 0x966; 0x9e6; 0xa66; 0xae6; 0xb66; 0xbe6;
   0xc66; 0xce6; 0xd66; 0xde6; 0xe50; 0xed0; 0xf20; 0x1040; 0x1090;
   0x17e0; 0x1810; 0x1946; 0x19d0; 0x1a80; 0x1a90; 0x1b50; 0x1bb0;
   0x1c40; 0x1c50; 0xa620; 0xa8d0; 0xa900; 0xa9d0; 0xa9f0; 0xaa50;
   0xabf0; 0xff10; 0x104a0; 0x10d30; 0x11066; 0x110f0; 0x11136; 0x111d0;
   0x112f0; 0x11450; 0x114d0; 0x11650; 0x116c0; 0x11730; 0x118e0;
   0x11950; 0x11c50; 0x11d50; 0x11da0; 0x16a60; 0x16ac0; 0x16b50;
   0x1d7ce; 0x1d7d8; 0x1d7e2; 0x1d7ec; 0x1d7f6; 0x1e140; 0x1e2f0;
   0x1e950; 0x1fbf0]%N.

(** [unicodedata.decimal(c)], when [c] is a decimal digit. *)
Definition decimal_value (c : char) : option N :=
  match find (fun z => (z <=? c) && (c <? z + 10))%N nd_zeros with
  | Some z => Some (c - z)%N
  | None => None
  end.

Definition is_decimal (c : char) : bool :=
  match decimal_value c with Some _ => true | None => false end.

(** ** [str] methods *)

(** [sep.join(parts)] *)
Fixpoint join (sep : str) (parts : list str) : str :=
  match parts with
  | [] => []
  | [p] => p
  | p :: rest => p ++ sep ++ join sep rest
  end.

(** [s.startswith(p)] *)
Fixpoint startswith (p s : str) : bool :=
  match p, s with
  | [], _ => true
  | _ :: _, [] => false
  | a :: p', b :: s' => (a =? b)%N && startswith p' s'
  end.

(** [needle in hay] *)
Fixpoint contains (needle hay : str) : bool :=
  startswith needle hay ||
  match hay with
  | [] => false
  | _ :: hay' => contains needle hay'
  end.

(** [s.replace(old, new)] for a non-empty [old]: occurrences are replaced
    left to right without overlap; [skip] counts the characters of the
    occurrence just replaced that are still to be dropped. *)
Fixpoint replace_from (old new : str) (skip : nat) (s : str) : str :=
  match s with
  | [] => []
  | c :: s' =>
      match skip with
      | S k => replace_from old new k s'
      | O => if startswith old s
             then new ++ replace_from old new (length old - 1) s'
             else c :: replace_from old new 0 s'
      end
  end.

(** [s.replace(old, new)]; an empty [old] matches before every character
    and at the end. *)
Definition replace (old new s : str) : str :=
  match old with
  | [] => new ++ flat_map (fun c => c :: new) s
  | _ :: _ => replace_from old new 0 s
  end.

Fixpoint lstrip (s : str) : str :=
  match s with
  | [] => []
  | c :: s' => if is_space c then lstrip s' else s
  end.

Definition rstrip (s : str) : str := rev (lstrip (rev s)).

(** [s.strip()] *)
Definition strip (s : str) : str := rstrip (lstrip s).

(** [str(n)] for a natural number. *)
Definition str_of_N (n : N) : str :=
  bytes_of (NilZero.string_of_uint (N.to_uint n)).

(** ** [float(s)]

    A float is NaN, an infinity or a finite binary64 number; a finite
    one is kept as the rational it is equal to (the sign of a zero is not
    kept: [-0.0 == 0.0]).  [float] reads a decimal text and rounds the
    rational it denotes to the nearest binary64 number, ties to even, and
    to an infinity beyond the range, as CPython's correctly rounded
    conversion does.  Which texts convert and which raise [ValueError]
    follows CPython's conversion step by step. *)

Inductive pyfloat : Type :=
| FNan
| FInf (neg : bool)
| FNum (q : Q).

(** The integer nearest to [q], ties to even. *)
Definition round_half_even (q : Q) : Z :=
  let f := Qfloor q in
  match Qcompare (q - inject_Z f)%Q (1 # 2)%Q with
  | Lt => f
  | Gt => (f + 1)%Z
  | Eq => if Z.even f then f else (f + 1)%Z
  end.

(** [2 ^ e] for any integer [e]. *)
Definition pow2 (e : Z) : Q :=
  if (0 <=? e)%Z then inject_Z (2 ^ e) else (1 # Z.to_pos (2 ^ (- e)))%Q.

(** [floor (log2 (n / d))] for positive [n] and [d]. *)
Definition log2_ratio (n d : Z) : Z :=
  let l := (Z.log2 n - Z.log2 d)%Z in
  if Qle_bool (pow2 l) (n # Z.to_pos d)%Q then l else (l - 1)%Z.

(** The binary64 number nearest to [q], ties to even: 53 significant
    bits, the least exponent that of the subnormal numbers; from
    [2 ^ 1024] on the result is an infinity. *)
Definition round_double (q : Q) : pyfloat :=
  match Qnum q with
  | Z0 => FNum 0
  | _ =>
      let neg := (Qnum q <? 0)%Z in
      let a := (Z.abs (Qnum q) # Qden q)%Q in
      let e := Z.max (log2_ratio (Z.abs (Qnum q)) (Z.pos (Qden q)) - 52)
                     (-1074) in
      let m := round_half_even (a / pow2 e)%Q in
      let v := (inject_Z m * pow2 e)%Q in
      if Qle_bool (pow2 1024) v then FInf neg
      else FNum (Qred (if neg then - v else v)%Q)
  end.

(** The float written [q] in Python source, e.g. [lit 1234.56]. *)
Definition lit (q : Q) : pyfloat := round_double q.

Definition is_ascii_digit (c : char) : bool := ((48 <=? c) && (c <=? 57))%N.
Definition is_ascii_space (c : char) : bool :=
  ((0x09 <=? c) && (c <=? 0x0D) || (c =? 0x20))%N.
Definition ascii_lower_char (c : char) : char :=
  if ((65 <=? c) && (c <=? 90))%N then (c + 32)%N else c.

(** Unicode whitespace becomes a space, a Unicode decimal digit becomes its
    ASCII digit, characters below 127 stay; any other character makes the
    conversion fail. *)
Fixpoint to_ascii_decimal (s : str) : option str :=
  match s with
  | [] => Some []
  | c :: s' =>
      if (c <? 127)%N then option_map (cons c) (to_ascii_decimal s')
      else if is_space c then option_map (cons 32%N) (to_ascii_decimal s')
      else match decimal_value c with
           | Some d => option_map (cons (48 + d)%N) (to_ascii_decimal s')
           | None => None
           end
  end.

Fixpoint lstrip_ascii (s : str) : str :=
  match s with
  | [] => []
  | c :: s' => if is_ascii_space c then lstrip_ascii s' else s
  end.

Definition strip_ascii (s : str) : str :=
  rev (lstrip_ascii (rev (lstrip_ascii s))).

(** An underscore is allowed only between two digits; [prev] is the
    character before [s] (0 at the start). *)
Fixpoint drop_underscores (prev : char) (s : str) : option str :=
  match s with
  | [] => if (prev =? 95)%N then None else Some []
  | c :: s' =>
      if (c =? 95)%N
      then if is_ascii_digit prev then drop_underscores c s' else None
      else if (prev =? 95)%N && negb (is_ascii_digit c) then None
           else option_map (cons c) (drop_underscores c s')
  end.

Fixpoint span_digits (s : str) : list N * str :=
  match s with
  | [] => ([], [])
  | c :: s' =>
      if is_ascii_digit c
      then let '(ds, r) := span_digits s' in ((c - 48)%N :: ds, r)
      else ([], s)
  end.

Definition digits_value (ds : list N) : N :=
  fold_left (fun a d => (a * 10 + d)%N) ds 0%N.

(** [m * 10 ^ e] *)
Definition scale10 (m : N) (e : Z) : Q :=
  if (0 <=? e)%Z
  then inject_Z (Z.of_N m * 10 ^ e)%Z
  else Qred (Z.of_N m # Z.to_pos (10 ^ (- e)))%Q.

Definition take_sign (s : str) : bool * str :=
  match s with
  | 43%N :: r => (false, r)
  | 45%N :: r => (true, r)
  | _ => (false, s)
  end.

(** [digits [. digits] [(e|E) [sign] digits]] with a digit in the mantissa,
    the whole text consumed. *)
Definition parse_decimal (s : str) : option Q :=
  let '(ip, r1) := span_digits s in
  let '(fp, r2) := match r1 with
                   | 46%N :: r => span_digits r
                   | _ => ([], r1)
                   end in
  match ip ++ fp with
  | [] => None
  | _ :: _ =>
      let m := digits_value (ip ++ fp) in
      let nfrac := Z.of_nat (List.length fp) in
      match r2 with
      | [] => Some (scale10 m (- nfrac)%Z)
      | c :: r3 =>
          if (c =? 101)%N || (c =? 69)%N
          then let '(eneg, r4) := take_sign r3 in
               match span_digits r4 with
               | ((_ :: _) as ed, []) =>
                   let e := Z.of_N (digits_value ed) in
                   Some (scale10 m ((if eneg then - e else e) - nfrac)%Z)
               | _ => None
               end
          else None
      end
  end.

Definition parse_float_body (s : str) : option pyfloat :=
  let '(neg, r) := take_sign s in
  let low := map ascii_lower_char r in
  if str_eqb low (u "inf") || str_eqb low (u "infinity") then Some (FInf neg)
  else if str_eqb low (u "nan") then Some FNan
  else match parse_decimal r with
       | Some q => Some (round_double (if neg then - q else q)%Q)
       | None => None
       end.

(** [float(s)] for a [str] argument: [ValueError] is the only exception. *)
Definition float (s : str) : result pyfloat :=
  match to_ascii_decimal s with
  | None => Raise ValueError
  | Some a =>
      match drop_underscores 0%N (strip_ascii a) with
      | None => Raise ValueError
      | Some b =>
          match parse_float_body b with
          | Some f => Ok f
          | None => Raise ValueError
          end
      end
  end.

End Py.
Export Py.

(* ===================================================================== *)
(** * Regular expressions: the fragment of [re] the sources use           *)
(* ===================================================================== *)

Module Re.

(** Character classes, concatenation, ordered alternation and greedy
    repetition.  Bounded repetition and [?] are derived forms. *)
Inductive regex : Type :=
| Eps
| Cls (p : char -> bool)
| Cat (r1 r2 : regex)
| Alt (r1 r2 : regex)
| Star (r : regex).

(** Greedy repetition of a body: as many rounds as possible first, one
    round fewer when the continuation [k] fails.  A round has to consume
    a character, so [fuel], the length of the text, is never exhausted. *)
Fixpoint star_loop {A : Type}
  (body : str -> (str -> option A) -> option A)
  (k : str -> option A) (fuel : nat) (s : str) {struct fuel} : option A :=
  match fuel with
  | O => k s
  | S fuel' =>
      match body s (fun s' =>
              if (List.length s' <? List.length s)%nat
              then star_loop body k fuel' s' else None) with
      | Some x => Some x
      | None => k s
      end
  end.

(** Backtracking matcher in continuation style: [run r s k] matches [r] at
    the start of [s] and hands the unread rest to [k]; when [k] fails the
    matcher backtracks into [r], trying alternatives in the order Python
    does (left alternative first, longest repetition first).  Every
    repetition body in the sources consumes a character. *)
Fixpoint run {A : Type} (r : regex) (s : str) (k : str -> option A)
  {struct r} : option A :=
  match r with
  | Eps => k s
  | Cls p =>
      match s with
      | c :: s' => if p c then k s' else None
      | [] => None
      end
  | Cat r1 r2 => run r1 s (fun s' => run r2 s' k)
  | Alt r1 r2 =>
      match run r1 s k with
      | Some x => Some x
      | None => run r2 s k
      end
  | Star r1 => star_loop (run r1) k (List.length s) s
  end.

(** Derived forms. *)
Definition Chr (c : char) : regex := Cls (N.eqb c).
Definition Opt (r : regex) : regex := Alt r Eps.            (* r?   *)
Definition Plus (r : regex) : regex := Cat r (Star r).      (* r+   *)

Fixpoint Lit (s : str) : regex :=
  match s with
  | [] => Eps
  | c :: s' => Cat (Chr c) (Lit s')
  end.

Fixpoint Rep (n : nat) (r : regex) : regex :=               (* r{n} *)
  match n with
  | O => Eps
  | S n' => Cat r (Rep n' r)
  end.

Fixpoint UpTo (n : nat) (r : regex) : regex :=              (* r{0,n} *)
  match n with
  | O => Eps
  | S n' => Opt (Cat r (UpTo n' r))
  end.

Definition Range (lo hi : nat) (r : regex) : regex :=       (* r{lo,hi} *)
  Cat (Rep lo r) (UpTo (hi - lo) r).

Fixpoint OneOf (rs : list regex) : regex :=                 (* a|b|c *)
  match rs with
  | [] => Cls (fun _ => false)
  | [r] => r
  | r :: rs' => Alt r (OneOf rs')
  end.

Fixpoint Seq (rs : list regex) : regex :=
  match rs with
  | [] => Eps
  | [r] => r
  | r :: rs' => Cat r (Seq rs')
  end.

Definition digit : regex := Cls is_decimal.                 (* \d *)
Definition space : regex := Cls is_space.                   (* \s *)
Definition AnyOf (cs : str) : regex :=                      (* [...] *)
  Cls (fun c => existsb (N.eqb c) cs).

(** A literal letter under [re.IGNORECASE]: both cases of the letter, and
    the extra characters the [re] module folds onto [i], [k] and [s]. *)
Definition ChrI (c : char) : regex :=
  let l := ascii_lower_char c in
  Cls (fun x => (ascii_lower_char x =? l)
                || (l =? 105) && ((x =? 0x130) || (x =? 0x131))
                || (l =? 107) && (x =? 0x212A)
                || (l =? 115) && (x =? 0x17F))%N.

Definition LitI (s : str) : regex := Seq (map ChrI s).

(** The rest of [s] after the first match of [r] at its start. *)
Definition match_at (r : regex) (s : str) : option str := run r s Some.

(** The same, for a match that consumes at least one character. *)
Definition match_at_nonempty (r : regex) (s : str) : option str :=
  run r s (fun rest =>
    if (List.length rest <? List.length s)%nat then Some rest else None).

Definition consumed (s rest : str) : str :=
  firstn (List.length s - List.length rest) s.

(** [re.search(r, s)]: the match at the leftmost position that has one;
    [m.group(0)] is returned. *)
Fixpoint search (r : regex) (s : str) : option str :=
  match match_at r s with
  | Some rest => Some (consumed s rest)
  | None =>
      match s with
      | [] => None
      | _ :: s' => search r s'
      end
  end.

(** One left-to-right scan for the non-overlapping matches, as done by
    [re.findall] and [re.sub]: a character outside every match, or a
    match.  After an empty match the scan looks for a non-empty one at
    the same position before moving on. *)
Inductive piece : Type :=
| Gap (c : char)
| Hit (m : str).

Fixpoint scan_from (r : regex) (skip : nat) (s : str) : list piece :=
  match s with
  | [] =>
      match skip, match_at r [] with
      | O, Some _ => [Hit []]
      | _, _ => []
      end
  | c :: s' =>
      match skip with
      | S k => scan_from r k s'
      | O =>
          match match_at r s with
          | Some rest =>
              match consumed s rest with
              | [] =>
                  Hit [] ::
                  match match_at_nonempty r s with
                  | Some rest' =>
                      Hit (consumed s rest')
                      :: scan_from r (List.length (consumed s rest') - 1) s'
                  | None => Gap c :: scan_from r 0 s'
                  end
              | m => Hit m :: scan_from r (List.length m - 1) s'
              end
          | None => Gap c :: scan_from r 0 s'
          end
      end
  end.

Definition scan (r : regex) (s : str) : list piece := scan_from r 0 s.

(** [re.findall(r, s)] for a pattern without groups. *)
Definition findall (r : regex) (s : str) : list str :=
  flat_map (fun p => match p with Hit m => [m] | Gap _ => [] end) (scan r s).

(** [re.sub(r, repl, s)] for a replacement without group references. *)
Definition sub (r : regex) (repl : str) (s : str) : str :=
  flat_map (fun p => match p with Hit _ => repl | Gap c => [c] end) (scan r s).

End Re.
Export Re.

Arguments Chr c%_N_scope.
Arguments ChrI c%_N_scope.

(** Monadic sequencing for code that may raise. *)
Notation "x <- m ;; k" := (bind m (fun x => k))
  (at level 61, m at next level, right associativity).

(* ===================================================================== *)
(** * Tables                                                              *)
(* ===================================================================== *)

(** A cell of a DataFrame is either missing ([pd.notna] is false: NaN or
    None) or present; a present cell is kept as the text [str(x)] gives
    for it, which is the only thing the sources read from a cell. *)
Definition cell := option str.
Definition row := list cell.

(** A DataFrame of cells: its rows in order. *)
Definition DataFrame := list row.

(** [[str(x) for x in row if pd.notna(x)]] *)
Definition present (r : row) : list str :=
  flat_map (fun x => match x with Some s => [s] | None => [] end) r.

(** [df.empty]: some axis has length zero. *)
Definition df_empty (df : DataFrame) : bool :=
  match df with
  | [] => true
  | [] :: _ => true
  | (_ :: _) :: _ => false
  end.

(** Dictionaries keep insertion order, which [LOCALES] iteration relies
    on. *)
Fixpoint dict_lookup {V : Type} (k : str) (d : list (str * V)) : option V :=
  match d with
  | [] => None
  | (k', v) :: d' => if str_eqb k k' then Some v else dict_lookup k d'
  end.

(** [d[k]] *)
Definition getitem {V : Type} (d : list (str * V)) (k : str) : result V :=
  match dict_lookup k d with
  | Some v => Ok v
  | None => Raise KeyError
  end.

(** [d.get(k, default)] *)
Definition dict_get {V : Type} (d : list (str * V)) (k : str) (default : V)
  : V :=
  match dict_lookup k d with
  | Some v => v
  | None => default
  end.

(* ===================================================================== *)
(** * locale_detector.py                                                  *)
(* ===================================================================== *)

Record LocaleConfig : Type := {
  code : str;
  name : str;
  date_patterns : list regex;
  amount_patterns : list regex;
  decimal_separator : str;
  thousands_separator : str;
  keywords : list str
}.

(** ** The patterns of the registry *)

Definition d12 : regex := Range 1 2 digit.                  (* \d{1,2} *)
Definition d4 : regex := Rep 4 digit.                       (* \d{4}   *)
Definition sign_ws : regex :=                               (* [+-]?\s* *)
  Cat (Opt (AnyOf (u "+-"))) (Star space).

(** [\d{1,2}/\d{1,2}/\d{4}] *)
Definition date_slash : regex := Seq [d12; Chr 47; d12; Chr 47; d4].
(** [\d{1,2}\.\d{1,2}\.\d{4}] *)
Definition date_dot : regex := Seq [d12; Chr 46; d12; Chr 46; d4].
(** [\d{4}-\d{1,2}-\d{1,2}] *)
Definition date_iso : regex := Seq [d4; Chr 45; d12; Chr 45; d12].
(** [\d{1,2}\s+(?:m1|m2|...)\s+\d{4}] *)
Definition date_month (months : list string) : regex :=
  Seq [d12; Plus space; OneOf (map (fun m => Lit (u m)) months);
       Plus space; d4].

Definition fr_months : list string :=
  ["janvier"; "février"; "mars"; "avril"; "mai"; "juin"; "juillet";
   "août"; "septembre"; "octobre"; "novembre"; "décembre"]%string.
Definition de_months : list string :=
  ["Januar"; "Februar"; "März"; "April"; "Mai"; "Juni"; "Juli";
   "August"; "September"; "Oktober"; "November"; "Dezember"]%string.
Definition en_months : list string :=
  ["January"; "February"; "March"; "April"; "May"; "June"; "July";
   "August"; "September"; "October"; "November"; "December"]%string.

Definition euro_opt : regex := Cat (Star space) (Opt (Lit (u "€"))).
Definition eur_code : regex := Cat (Star space) (Lit (u "EUR")).

(** [[+-]?\s*\d+[\s,]\d{2}\s*€?] *)
Definition fr_amount_1 : regex :=
  Seq [sign_ws; Plus digit; Cls (fun c => is_space c || (c =? 44)%N);
       Rep 2 digit; euro_opt].
(** [[+-]?\s*\d+,\d{2}\s*EUR] *)
Definition amount_comma_eur : regex :=
  Seq [sign_ws; Plus digit; Chr 44; Rep 2 digit; eur_code].
(** [[+-]?\s*\d+[\.,]\d{3}[\.,]\d{2}] *)
Definition de_amount_1 : regex :=
  Seq [sign_ws; Plus digit; AnyOf (u ".,"); Rep 3 digit; AnyOf (u ".,");
       Rep 2 digit].
(** [[+-]?\s*\d+,\d{2}\s*€?] *)
Definition de_amount_2 : regex :=
  Seq [sign_ws; Plus digit; Chr 44; Rep 2 digit; euro_opt].
(** [[+-]?\s*\$?\d+,\d{3}\.\d{2}] *)
Definition en_amount_1 : regex :=
  Seq [sign_ws; Opt (Chr 36); Plus digit; Chr 44; Rep 3 digit; Chr 46;
       Rep 2 digit].
(** [[+-]?\s*\d+\.\d{2}\s*(?:USD|EUR|GBP)?] *)
Definition en_amount_2 : regex :=
  Seq [sign_ws; Plus digit; Chr 46; Rep 2 digit; Star space;
       Opt (OneOf [Lit (u "USD"); Lit (u "EUR"); Lit (u "GBP")])].

Definition fr_config : LocaleConfig := {|
  code := u "fr";
  name := u "French";
  date_patterns := [date_slash; date_dot; date_month fr_months];
  amount_patterns := [fr_amount_1; amount_comma_eur];
  decimal_separator := u ",";
  thousands_separator := u " ";
  keywords := map u
    ["solde"; "crédit"; "débit"; "virement"; "prélèvement";
     "montant"; "date"; "opération"; "facture"; "relevé";
     "janvier"; "février"; "mars"; "avril"; "mai"; "juin";
     "juillet"; "août"; "septembre"; "octobre"; "novembre";
     "décembre"]%string
|}.

Definition de_config : LocaleConfig := {|
  code := u "de";
  name := u "German";
  date_patterns := [date_dot; date_slash; date_month de_months];
  amount_patterns := [de_amount_1; de_amount_2; amount_comma_eur];
  decimal_separator := u ",";
  thousands_separator := u ".";
  keywords := map u
    ["saldo"; "kredit"; "lastschrift"; "überweisung"; "betrag";
     "datum"; "buchung"; "rechnung"; "kontoauszug";
     "januar"; "februar"; "märz"; "april"; "mai"; "juni";
     "juli"; "august"; "september"; "oktober"; "november";
     "dezember"]%string
|}.

Definition en_config : LocaleConfig := {|
  code := u "en";
  name := u "English";
  date_patterns := [date_slash; date_iso; date_month en_months];
  amount_patterns := [en_amount_1; en_amount_2];
  decimal_separator := u ".";
  thousands_separator := u ",";
  keywords := map u
    ["balance"; "credit"; "debit"; "transfer"; "payment";
     "amount"; "date"; "transaction"; "invoice"; "statement";
     "january"; "february"; "march"; "april"; "may"; "june";
     "july"; "august"; "september"; "october"; "november";
     "december"]%string
|}.

(** The registry, in insertion order. *)
Definition LOCALES : list (str * LocaleConfig) :=
  [(u "fr", fr_config); (u "de", de_config); (u "en", en_config)].

(** ** LocaleDetector *)

Record LocaleDetector : Type := {
  default_locale : str;
  _confidence_threshold : Q
}.

(** [LocaleDetector.__init__] *)
Definition LocaleDetector__init__ (default_locale : str)
  : result LocaleDetector :=
  match dict_lookup default_locale LOCALES with
  | None => Raise ValueError
  | Some _ =>
      Ok {| default_locale := default_locale;
            _confidence_threshold := 0.3%Q |}
  end.

(** [a / b] on integers.  The quotient is kept exact; Python rounds it
    to the nearest double.  With the registry's keyword counts (21 and
    22) two different quotients, or a quotient and the threshold 0.3,
    are never closer than 1/462, so [max], [>=] and the two-decimal
    percentage give the same on the exact values as on the doubles. *)
Definition truediv (a b : nat) : result Q :=
  match b with
  | O => Raise ZeroDivisionError
  | S _ => Ok (Z.of_nat a # Pos.of_nat b)%Q
  end.

(** [max(scores, key=scores.get)]: the first key whose value no later
    value exceeds. *)
Definition max_by_value (scores : list (str * Q)) : option (str * Q) :=
  match scores with
  | [] => None
  | first :: rest =>
      Some (fold_left
              (fun best kv => if Qle_bool (snd kv) (snd best) then best else kv)
              rest first)
  end.

(** [f"{x:.2%}"]: [x * 100] with two decimals, ties to even
    ([round_half_even]), then [%]. *)
Definition two_digits (n : N) : str :=
  (if (n <? 10)%N then u "0" else []) ++ str_of_N n.

Definition format_percent (q : Q) : str :=
  let n := round_half_even (q * 10000)%Q in
  let a := Z.abs_N n in
  (if (n <? 0)%Z then u "-" else [])
  ++ str_of_N (a / 100) ++ u "." ++ two_digits (a mod 100) ++ u "%".

Definition lang_indicators : list (str * list str) :=
  [(u "fr", map u ["_fr"; "-fr"; "french"; "francais"; "français";
                   "france"]%string);
   (u "de", map u ["_de"; "-de"; "german"; "deutsch"; "deutschland";
                   "germany"]%string);
   (u "en", map u ["_en"; "-en"; "english"; "uk"; "usa"; "us"]%string)].

Section Detection.

(** [str.lower] of the interpreter: full Unicode lower-casing, taken as
    given. *)
Variable lower : str -> str.

(** [LocaleDetector.detect_from_filename] *)
Definition detect_from_filename (filename : str) : option str :=
  let filename_lower := lower filename in
  match find (fun li => existsb (fun ind => contains ind filename_lower)
                                (snd li))
             lang_indicators with
  | Some (locale, _) => Some locale
  | None => None
  end.

(** The text blob of [detect_from_content]. *)
Definition content_text (df : DataFrame) : str :=
  join (u " ") (map lower (flat_map present df)).

Definition keyword_count (config : LocaleConfig) (text : str) : nat :=
  List.length (filter (fun keyword => contains (lower keyword) text)
                      (keywords config)).

(** The [scores] dictionary, one entry per locale in registry order. *)
Fixpoint locale_scores (locales : list (str * LocaleConfig)) (text : str)
  : result (list (str * Q)) :=
  match locales with
  | [] => Ok []
  | (locale_code, config) :: rest =>
      score <- truediv (keyword_count config text)
                       (List.length (keywords config)) ;;
      scores <- locale_scores rest text ;;
      Ok ((locale_code, score) :: scores)
  end.

(** [LocaleDetector.detect_from_content] *)
Definition detect_from_content (self : LocaleDetector)
  (df : option DataFrame) : result (option str * Q) :=
  match df with
  | None => Ok (None, 0%Q)
  | Some df =>
      if df_empty df then Ok (None, 0%Q)
      else
        let text := content_text df in
        match text with
        | [] => Ok (None, 0%Q)
        | _ :: _ =>
            scores <- locale_scores LOCALES text ;;
            match max_by_value scores with
            | None => Ok (None, 0%Q)
            | Some (best_locale, confidence) =>
                if Qle_bool (_confidence_threshold self) confidence
                then Ok (Some best_locale, confidence)
                else Ok (None, confidence)
            end
        end
  end.

(** [LocaleDetector.detect_locale] *)
Definition detect_locale (self : LocaleDetector) (filename : str)
  (df : option DataFrame) (explicit_locale : option str)
  : result (str * str) :=
  let explicit :=
    match explicit_locale with
    | Some ((_ :: _) as e) =>
        match dict_lookup e LOCALES with
        | Some _ => Some e
        | None => None          (* warning printed, falls through *)
        end
    | _ => None
    end in
  match explicit with
  | Some e => Ok (e, u "explicit")
  | None =>
      match detect_from_filename filename with
      | Some ((_ :: _) as filename_locale) => Ok (filename_locale, u "filename")
      | _ =>
          found <-
            match df with
            | Some _ =>
                r <- detect_from_content self df ;;
                match r with
                | (Some ((_ :: _) as content_locale), confidence) =>
                    Ok (Some (content_locale,
                              u "content (confidence: "
                              ++ format_percent confidence ++ u ")"))
                | _ => Ok None
                end
            | None => Ok None
            end ;;
          match found with
          | Some r => Ok r
          | None => Ok (default_locale self, u "default")
          end
      end
  end.

End Detection.

(** [LocaleDetector.get_config]: the fallback argument is evaluated
    before the lookup. *)
Definition get_config (self : LocaleDetector) (locale : str)
  : result LocaleConfig :=
  fallback <- getitem LOCALES (default_locale self) ;;
  Ok (dict_get LOCALES locale fallback).

(** [EUR|USD|GBP|CHF] under [re.IGNORECASE] *)
Definition currency_codes : regex :=
  OneOf [LitI (u "EUR"); LitI (u "USD"); LitI (u "GBP"); LitI (u "CHF")].

(** The configuration [clean_amount] and [parse_date] work with. *)
Definition config_or_lookup (locale : str)
  (locale_config : option LocaleConfig) : result LocaleConfig :=
  match locale_config with
  | Some c => Ok c
  | None =>
      fallback <- getitem LOCALES (u "fr") ;;
      Ok (dict_get LOCALES locale fallback)
  end.

(** The text [clean_amount] hands to [float]. *)
Definition amount_text (text : str) (locale_config : LocaleConfig) : str :=
  let text := strip text in
  let text := sub (AnyOf (u "€$£¥")) [] text in
  let text := sub currency_codes [] text in
  let text := replace (u " ") [] text in
  let text :=
    if str_eqb (decimal_separator locale_config) (u ",")
    then replace (u ",") (u ".")
           (replace (thousands_separator locale_config) [] text)
    else replace (thousands_separator locale_config) [] text in
  replace (u "+") [] text.

(** [clean_amount]; a missing [text] ([pd.isna]) is [None]. *)
Definition clean_amount (text : option str) (locale : str)
  (locale_config : option LocaleConfig) : result (option pyfloat) :=
  match text with
  | None => Ok None
  | Some [] => Ok None
  | Some text =>
      locale_config <- config_or_lookup locale locale_config ;;
      try_except
        (x <- float (amount_text text locale_config) ;; Ok (Some x))
        (fun e => match e with
                  | ValueError => Ok None
                  | _ => Raise e
                  end)
  end.

(** The [for pattern in ...: match = re.search(...)] loop of [parse_date] *)
Fixpoint first_match (patterns : list regex) (text : str) : option str :=
  match patterns with
  | [] => None
  | pattern :: rest =>
      match search pattern text with
      | Some m => Some m
      | None => first_match rest text
      end
  end.

(** [parse_date] *)
Definition parse_date (text : option str) (locale : str)
  (locale_config : option LocaleConfig) : result (option str) :=
  match text with
  | None => Ok None
  | Some [] => Ok None
  | Some text =>
      locale_config <- config_or_lookup locale locale_config ;;
      Ok (first_match (date_patterns locale_config) (strip text))
  end.

(** [list_available_locales] *)
Definition list_available_locales : list (str * str) :=
  map (fun kv => (fst kv, name (snd kv))) LOCALES.

(* ===================================================================== *)
(** * core.py                                                             *)
(* ===================================================================== *)

(** The keyword argument a call of the engine sets to [True]. *)
Inductive mode : Type := lattice | stream | guess.

Definition methods : list str := [u "lattice"; u "stream"; u "guess"].

(** The [if method == 'lattice': ... elif method == 'stream': ... else:]
    dispatch. *)
Definition mode_of (method : str) : mode :=
  if str_eqb method (u "lattice") then lattice
  else if str_eqb method (u "stream") then stream
  else guess.

(** The external engine on one document: what
    [tabula.read_pdf(str(pdf_path), pages='all', <mode>=True)] does for
    each mode, a list of tables or an exception. *)
Definition engine := mode -> result (list DataFrame).

(** [pd.concat(tables, ignore_index=True)].  A table is kept as its rows,
    without column labels: for tables with the same labels the result is
    the rows of the tables in order.  For tables with different labels
    pandas lays each row out under the union of the labels, so the cells
    of a row can differ from the ones kept here; the number of rows,
    which is all [extract_tables] reads from the result, is the sum of
    the tables' rows either way. *)
Definition pd_concat (tables : list DataFrame) : DataFrame := concat tables.

Record best : Type := {
  best_result : option DataFrame;
  best_method : option str;
  max_rows : nat
}.

(** The body of the [try] block for one method. *)
Definition try_method (read_pdf : engine) (st : best) (method : str)
  : result best :=
  tables <- read_pdf (mode_of method) ;;
  match tables with
  | [] => Ok st
  | _ :: _ =>
      let combined := pd_concat tables in
      if (max_rows st <? List.length combined)%nat
      then Ok {| best_result := Some combined;
                 best_method := Some method;
                 max_rows := List.length combined |}
      else Ok st
  end.

(** [for method in methods: try: ... except Exception: continue] *)
Fixpoint for_methods (read_pdf : engine) (ms : list str) (st : best)
  : result best :=
  match ms with
  | [] => Ok st
  | method :: rest =>
      st' <- try_except (try_method read_pdf st method) (fun _ => Ok st) ;;
      for_methods read_pdf rest st'
  end.

(** [PDFTableExtractor.extract_tables] *)
Definition extract_tables (read_pdf : engine)
  : result (option DataFrame * option str) :=
  st <- for_methods read_pdf methods
          {| best_result := None; best_method := None; max_rows := 0 |} ;;
  Ok (best_result st, best_method st).

(* ===================================================================== *)
(** * parsers.py                                                          *)
(* ===================================================================== *)

(** One dictionary appended to [transactions]. *)
Record Transaction : Type := {
  Date : str;
  Description : str;
  Amount : pyfloat;
  Source : str
}.

(** [\d{1,2}/\d{1,2}/\d{4}] *)
Definition bank_date : regex := date_slash.

(** [[+-]?\s*\d+[,\s]\d{2}] *)
Definition bank_amount : regex :=
  Seq [sign_ws; Plus digit; Cls (fun c => (c =? 44)%N || is_space c);
       Rep 2 digit].

Definition row_str (r : row) : str := join (u " ") (present r).

(** The text handed to [float] for an amount match. *)
Definition amount_repr (m : str) : str :=
  replace (u ",") (u ".") (replace (u " ") [] m).

(** The body of the [for] loop: the transaction appended for the row, if
    any. *)
Definition parse_row (filename : str) (r : row) : result (option Transaction) :=
  let row_str := row_str r in
  let dates := findall bank_date row_str in
  let amounts := findall bank_amount row_str in
  match dates, rev amounts with
  | date_op :: _, last_amount :: _ =>
      amount <- float (amount_repr last_amount) ;;
      Ok (Some {| Date := date_op;
                  Description := row_str;
                  Amount := amount;
                  Source := filename |})
  | _, _ => Ok None
  end.

Fixpoint parse_rows (filename : str) (rows : list row)
  (transactions : list Transaction) : result (list Transaction) :=
  match rows with
  | [] => Ok transactions
  | r :: rest =>
      t <- parse_row filename r ;;
      parse_rows filename rest
        (match t with
         | Some tx => transactions ++ [tx]
         | None => transactions
         end)
  end.

(** [bank_statement_parser]: a DataFrame of the transactions, or [None]
    when there is none. *)
Definition bank_statement_parser (df : DataFrame) (filename : str)
  : result (option (list Transaction)) :=
  transactions <- parse_rows filename df [] ;;
  match transactions with
  | [] => Ok None
  | _ :: _ => Ok (Some transactions)
  end.

(** What a caller holds after either call: Python's [None], a DataFrame of
    cells, or a DataFrame of transaction records. *)
Inductive pyobj : Type :=
| PyNone
| PyCells (df : DataFrame)
| PyRecords (txs : list Transaction).

Definition obj_of_table (o : option DataFrame) : pyobj :=
  match o with Some df => PyCells df | None => PyNone end.

Definition obj_of_transactions (o : option (list Transaction)) : pyobj :=
  match o with Some txs => PyRecords txs | None => PyNone end.

(* ===================================================================== *)
(** * core.py and cli.py: batch processing and the command line           *)
(* ===================================================================== *)

(** ** [pathlib] on the final component of a path

    [PurePath.suffix], [PurePath.stem] and [PurePath.with_suffix] only
    read and rewrite the name, the last component of the path. *)

(** [name.rfind('.')], when there is a dot. *)
Fixpoint rfind_dot (name : str) : option nat :=
  match name with
  | [] => None
  | c :: rest =>
      match rfind_dot rest with
      | Some i => Some (S i)
      | None => if (c =? 46)%N then Some 0 else None
      end
  end.

(** The index that splits stem and suffix: the last dot, unless it is the
    first or the last character of the name. *)
Definition suffix_index (name : str) : option nat :=
  match rfind_dot name with
  | Some i =>
      if ((0 <? i) && (i <? List.length name - 1))%nat then Some i else None
  | None => None
  end.

(** [path.suffix] *)
Definition path_suffix (name : str) : str :=
  match suffix_index name with
  | Some i => skipn i name
  | None => []
  end.



(** ** What the calls do to the file system

    Directory creation and file writes, in the order they are issued; the
    text of a written file is fixed by the table, which stands for it. *)








(** ** [cli.main] *)







Unset Implicit Arguments.

(* ===================================================================== *)
(** * Strategy selection ([core.py])                                      *)
(* ===================================================================== *)

(** ** Vocabulary of the statements *)

(** The table one attempt contributes: the concatenation of what the
    engine returned, nothing when it raised. *)
Definition attempt_table (read_pdf : engine) (m : mode) : DataFrame :=
  match read_pdf m with
  | Ok tables => pd_concat tables
  | Raise _ => []
  end.

(** The row count of an attempt; a failed or empty attempt counts 0. *)
Definition attempt_rows (read_pdf : engine) (m : mode) : nat :=
  List.length (attempt_table read_pdf m).

(** The modes in the order they are tried, their names, and the position
    of each in that order. *)
Definition modes : list mode := [lattice; stream; guess].

Definition mode_name (m : mode) : str :=
  match m with
  | lattice => u "lattice"
  | stream => u "stream"
  | guess => u "guess"
  end.

Definition mode_index (m : mode) : nat :=
  match m with lattice => 0 | stream => 1 | guess => 2 end.

Definition mode_eqb (a b : mode) : bool :=
  (mode_index a =? mode_index b)%nat.

(** The engine that reports no table for mode [m] instead of whatever it
    did there. *)
Definition silenced (read_pdf : engine) (m : mode) : engine :=
  fun m' => if mode_eqb m' m then Ok [] else read_pdf m'.

(** The pure step the loop body amounts to. *)
Definition keep_best (read_pdf : engine) (st : best) (m : mode) : best :=
  if (max_rows st <? attempt_rows read_pdf m)%nat
  then {| best_result := Some (attempt_table read_pdf m);
          best_method := Some (mode_name m);
          max_rows := attempt_rows read_pdf m |}
  else st.

Section Extraction.

Variable read_pdf : engine.

Lemma mode_of_name (m : mode) : mode_of (mode_name m) = m.
Proof. destruct m; reflexivity. Qed.

Lemma try_method_keep_best (st : best) (m : mode) :
  try_except (try_method read_pdf st (mode_name m)) (fun _ => Ok st)
  = Ok (keep_best read_pdf st m).
Proof.
  unfold try_method, keep_best, attempt_rows, attempt_table.
  rewrite mode_of_name.
  destruct (read_pdf m) as [tables | e]; simpl.
  - destruct tables as [| t ts]; simpl.
    + reflexivity.
    + destruct (max_rows st <? _)%nat; reflexivity.
  - reflexivity.
Qed.

Lemma for_methods_fold (ms : list mode) :
  forall st, for_methods read_pdf (map mode_name ms) st
             = Ok (fold_left (keep_best read_pdf) ms st).
Proof.
  induction ms as [| m ms IH]; intros st; simpl.
  - reflexivity.
  - rewrite try_method_keep_best. simpl. apply IH.
Qed.

(** The loop never lowers the best row count, and every method it has
    seen is at most the best. *)
Lemma fold_keep_best_bounds (ms : list mode) :
  forall st,
    let st' := fold_left (keep_best read_pdf) ms st in
    max_rows st <= max_rows st'
    /\ forall m, In m ms -> attempt_rows read_pdf m <= max_rows st'.
Proof.
  induction ms as [| m0 ms IH]; intros st; simpl.
  - split; [lia | intros m []].
  - destruct (IH (keep_best read_pdf st m0)) as [Hge Hall].
    assert (Hstep : max_rows st <= max_rows (keep_best read_pdf st m0)
                    /\ attempt_rows read_pdf m0
                       <= max_rows (keep_best read_pdf st m0)).
    { unfold keep_best.
      destruct (Nat.ltb_spec (max_rows st) (attempt_rows read_pdf m0));
        simpl; lia. }
    split; [lia |].
    intros m [<- | Hin]; [lia | auto].
Qed.

(** What the loop holds is what some attempt produced. *)
Definition from_attempt (st : best) : Prop :=
  match best_method st with
  | Some method =>
      exists m, method = mode_name m
                /\ best_result st = Some (attempt_table read_pdf m)
                /\ max_rows st = attempt_rows read_pdf m
                /\ 0 < max_rows st
  | None => best_result st = None /\ max_rows st = 0
  end.

Lemma keep_best_from_attempt (st : best) (m : mode) :
  from_attempt st -> from_attempt (keep_best read_pdf st m).
Proof.
  unfold keep_best.
  destruct (Nat.ltb_spec (max_rows st) (attempt_rows read_pdf m)) as [Hlt | Hge].
  - intros _. unfold from_attempt. simpl. exists m. repeat split. lia.
  - auto.
Qed.

Lemma fold_keep_best_from_attempt (ms : list mode) :
  forall st, from_attempt st ->
             from_attempt (fold_left (keep_best read_pdf) ms st).
Proof.
  induction ms as [| m ms IH]; intros st H; simpl.
  - exact H.
  - apply IH, keep_best_from_attempt, H.
Qed.

Lemma extract_tables_fold :
  extract_tables read_pdf
  = let st := fold_left (keep_best read_pdf) modes
                {| best_result := None; best_method := None; max_rows := 0 |}
    in Ok (best_result st, best_method st).
Proof.
  unfold extract_tables.
  change methods with (map mode_name modes).
  rewrite for_methods_fold. reflexivity.
Qed.

End Extraction.

(** The three row counts decide the outcome: two engines with the same
    attempt tables give the same result. *)
Lemma extract_tables_ext (e1 e2 : engine) :
  (forall m, attempt_table e1 m = attempt_table e2 m) ->
  extract_tables e1 = extract_tables e2.
Proof.
  intros H. rewrite !extract_tables_fold.
  assert (Hk : forall st m, keep_best e1 st m = keep_best e2 st m).
  { intros st m. unfold keep_best, attempt_rows. rewrite H. reflexivity. }
  unfold modes. simpl. rewrite !Hk. reflexivity.
Qed.

(** When no attempt has a row, nothing is ever selected. *)
Lemma extract_tables_all_empty (read_pdf : engine) :
  (forall m, attempt_rows read_pdf m = 0) ->
  extract_tables read_pdf = Ok (None, None).
Proof.
  intros H0. rewrite extract_tables_fold. unfold modes, keep_best. simpl.
  rewrite !H0. reflexivity.
Qed.

(** C1. For the three attempts tried in the order lattice, stream, guess:
    when every attempt failed or came back empty the result is
    [(None, None)], returned normally; otherwise the result is the
    concatenated table and the mode of the attempt with the greatest row
    count, the earliest such mode on a tie. *)
Theorem extract_tables_selects_richest (read_pdf : engine) :
  ((forall m, attempt_rows read_pdf m = 0) ->
   extract_tables read_pdf = Ok (None, None))
  /\
  (forall m,
      0 < attempt_rows read_pdf m ->
      (forall m', attempt_rows read_pdf m' <= attempt_rows read_pdf m) ->
      (forall m', mode_index m' < mode_index m ->
                  attempt_rows read_pdf m' < attempt_rows read_pdf m) ->
      extract_tables read_pdf
      = Ok (Some (attempt_table read_pdf m), Some (mode_name m))).
Proof.
  split.
  - apply extract_tables_all_empty.
  - rewrite extract_tables_fold. unfold modes. simpl.
    intros m Hpos Hmax Hfirst.
    pose proof (Hmax lattice) as Ml. pose proof (Hmax stream) as Ms.
    pose proof (Hmax guess) as Mg.
    pose proof (Hfirst lattice) as Fl. pose proof (Hfirst stream) as Fs.
    unfold keep_best; simpl.
    destruct m; simpl in *;
      repeat match goal with
        | |- context [(?a <? ?b)%nat] =>
            lazymatch a with
            | context [(_ <? _)%nat] => fail
            | _ => destruct (Nat.ltb_spec a b); simpl in *
            end
        end;
      first [reflexivity | lia].
Qed.

(** A document whose lattice attempt raises, whose stream and guess
    attempts both give two rows: stream, the earlier of the tied modes,
    is selected. *)
Definition tie_engine : engine :=
  fun m =>
    match m with
    | lattice => Raise (EngineError 1)
    | stream => Ok [[[Some (u "a")]]; [[Some (u "b")]]]
    | guess => Ok [[[Some (u "c")]; [Some (u "d")]]]
    end.

Lemma extract_tables_selects_richest_witness :
  extract_tables tie_engine
  = Ok (Some [[Some (u "a")]; [Some (u "b")]], Some (u "stream")).
Proof.
  apply (proj2 (extract_tables_selects_richest tie_engine) stream).
  - vm_compute. lia.
  - intros []; vm_compute; lia.
  - intros []; vm_compute; lia.
Defined.

(** C7. An engine error in one mode is the same as that mode reporting no
    table: [extract_tables] returns normally for every engine, its result
    is unchanged when a raising mode is replaced by an empty answer, and a
    mode that did produce rows still yields a selected table at least as
    rich. *)
Theorem extract_tables_survives_engine_errors (read_pdf : engine) :
  (exists r, extract_tables read_pdf = Ok r)
  /\
  (forall m e, read_pdf m = Raise e ->
     extract_tables read_pdf = extract_tables (silenced read_pdf m))
  /\
  (forall m e m' tables,
     read_pdf m = Raise e ->
     read_pdf m' = Ok tables ->
     0 < List.length (pd_concat tables) ->
     exists t chosen tables',
       extract_tables read_pdf = Ok (Some t, Some (mode_name chosen))
       /\ read_pdf chosen = Ok tables'
       /\ t = pd_concat tables'
       /\ List.length (pd_concat tables) <= List.length t).
Proof.
  split; [| split].
  - rewrite extract_tables_fold. eexists. reflexivity.
  - intros m e Hm. apply extract_tables_ext. intros m'.
    unfold attempt_table, silenced, mode_eqb.
    destruct (Nat.eqb_spec (mode_index m') (mode_index m)) as [Heq | Hne].
    + assert (m' = m) by (destruct m', m; simpl in Heq; congruence).
      subst m'. rewrite Hm. reflexivity.
    + reflexivity.
  - intros m e m' tables Hm Hm' Hpos.
    rewrite extract_tables_fold. cbv zeta.
    set (st0 := {| best_result := None; best_method := None; max_rows := 0 |}).
    set (st := fold_left (keep_best read_pdf) modes st0).
    assert (Hinv : from_attempt read_pdf st).
    { apply fold_keep_best_from_attempt. unfold from_attempt. simpl. auto. }
    destruct (fold_keep_best_bounds read_pdf modes st0) as [_ Hall].
    fold st in Hall.
    assert (Hrows : List.length (pd_concat tables) <= max_rows st).
    { specialize (Hall m'). unfold attempt_rows, attempt_table in Hall.
      rewrite Hm' in Hall. apply Hall. destruct m'; simpl; auto. }
    unfold from_attempt in Hinv.
    destruct (best_method st) as [method |].
    + destruct Hinv as (chosen & -> & Hres & Hmax & _).
      unfold attempt_rows, attempt_table in Hres, Hmax.
      destruct (read_pdf chosen) as [tables' | e'] eqn:Hc.
      * exists (pd_concat tables'), chosen, tables'.
        rewrite Hres. repeat split; [exact Hc | lia].
      * simpl in Hmax. lia.
    + destruct Hinv as [_ H0]. lia.
Qed.

Lemma extract_tables_survives_engine_errors_witness :
  extract_tables tie_engine = extract_tables (silenced tie_engine lattice)
  /\ exists t chosen tables',
       extract_tables tie_engine = Ok (Some t, Some (mode_name chosen))
       /\ tie_engine chosen = Ok tables'
       /\ t = pd_concat tables'
       /\ 2 <= List.length t.
Proof.
  pose proof (extract_tables_survives_engine_errors tie_engine) as (_ & H1 & H2).
  split.
  - exact (H1 lattice (EngineError 1) eq_refl).
  - exact (H2 lattice (EngineError 1) guess _ eq_refl eq_refl
              (Nat.lt_0_succ 1)).
Defined.


(* ===================================================================== *)
(** * The bank statement parser ([bank_statement_parser])                 *)
(* ===================================================================== *)

(** The sample row of the specification, as one cell or split in cells:
    one transaction dated by the first date, with the last amount and the
    whole row text as description. *)
Lemma bank_statement_parser_sample_row :
  bank_statement_parser
    [[Some (u "15/01/2024 Grocery Store 45,50 2300,17")]] (u "s.pdf")
  = Ok (Some [{| Date := u "15/01/2024";
                 Description := u "15/01/2024 Grocery Store 45,50 2300,17";
                 Amount := lit 2300.17;
                 Source := u "s.pdf" |}])
  /\ bank_statement_parser
       [[Some (u "15/01/2024"); None; Some (u "Grocery Store");
         Some (u "45,50"); Some (u "2300,17")]] (u "s.pdf")
     = Ok (Some [{| Date := u "15/01/2024";
                    Description := u "15/01/2024 Grocery Store 45,50 2300,17";
                    Amount := lit 2300.17;
                    Source := u "s.pdf" |}]).
Proof.
  split; vm_compute; reflexivity.
Qed.

(** A statement row whose amount is written with a no-break space after
    the sign. *)
Definition nbsp_row : row :=
  [Some (u "15/01/2024"); Some (u "Loyer");
   Some (u "-" ++ [0xA0%N] ++ u "450,00")].

(** C4 at a failing input: the row has a date match and an amount match,
    yet no transaction is emitted; the loop body raises [ValueError] and
    so does the parser. *)
Theorem parse_row_raises_on_qualifying_row :
  findall bank_date (row_str nbsp_row) = [u "15/01/2024"]
  /\ findall bank_amount (row_str nbsp_row)
     = [u "-" ++ [0xA0%N] ++ u "450,00"]
  /\ parse_row (u "s.pdf") nbsp_row = Raise ValueError
  /\ bank_statement_parser [nbsp_row] (u "s.pdf") = Raise ValueError.
Proof.
  split; [| split; [| split]]; vm_compute; reflexivity.
Qed.

(** An amount written with a tab between its digit groups. *)
Definition tab_amount : str := u "12" ++ [9%N] ++ u "34".

(** C9 at a failing input: the whole of [tab_amount] is matched by the
    amount pattern, the text handed to [float] after removing spaces and
    replacing commas is not a number, and the parser raises
    [ValueError] on a table holding it. *)
Theorem bank_amount_match_not_convertible :
  match_at bank_amount tab_amount = Some []
  /\ findall bank_amount (u "Rent " ++ tab_amount) = [u " " ++ tab_amount]
  /\ amount_repr (u " " ++ tab_amount) = tab_amount
  /\ float tab_amount = Raise ValueError
  /\ bank_statement_parser
       [[Some (u "15/01/2024"); Some (u "Rent"); Some tab_amount]]
       (u "s.pdf")
     = Raise ValueError.
Proof.
  split; [| split; [| split; [| split]]]; vm_compute; reflexivity.
Qed.


(* ===================================================================== *)
(** * The statement parser's empty outcome ([parsers.py])                 *)
(* ===================================================================== *)

(** What the caller holds after each of the two calls. *)
Definition parser_outcome (df : DataFrame) (filename : str) : result pyobj :=
  r <- bank_statement_parser df filename ;; Ok (obj_of_transactions r).

Definition extraction_outcome (read_pdf : engine) : result pyobj :=
  r <- extract_tables read_pdf ;; Ok (obj_of_table (fst r)).

Lemma parse_rows_all_skipped (filename : str) (rows : list row) :
  (forall r, In r rows -> parse_row filename r = Ok None) ->
  forall acc, parse_rows filename rows acc = Ok acc.
Proof.
  induction rows as [| r rows IH]; intros Hskip acc; simpl.
  - reflexivity.
  - rewrite (Hskip r (or_introl eq_refl)). simpl.
    apply IH. intros r' Hin. apply Hskip. right. exact Hin.
Qed.

(** A table with one row that holds no date, and an engine that fails in
    every mode. *)
Definition table_without_transactions : DataFrame :=
  [[Some (u "Opening balance"); None; Some (u "n/a")]].

Definition failing_engine : engine := fun _ => Raise (EngineError 2).

(** C8, as stated, fails: the parser's outcome for a table without any
    transaction is the very value extraction returns when no table was
    obtained. *)
Lemma parser_empty_outcome_not_distinguishable :
  ~ (forall df filename read_pdf,
        (forall r, In r df -> parse_row filename r = Ok None) ->
        (forall m, attempt_rows read_pdf m = 0) ->
        parser_outcome df filename <> extraction_outcome read_pdf).
Proof.
  intros H.
  apply (H table_without_transactions (u "a.pdf") failing_engine).
  - intros r [<- | []]. vm_compute. reflexivity.
  - intros m. reflexivity.
  - vm_compute. reflexivity.
Qed.

(** C8, amended. When no row of the table yields a transaction,
    [bank_statement_parser] returns [None] as a normal value; this is the
    same [None] that [extract_tables] returns for its table when every
    mode failed or came back empty. *)
Theorem bank_statement_parser_empty_is_None (df : DataFrame) (filename : str) :
  (forall r, In r df -> parse_row filename r = Ok None) ->
  bank_statement_parser df filename = Ok None
  /\ parser_outcome df filename = Ok PyNone
  /\ forall read_pdf,
       (forall m, attempt_rows read_pdf m = 0) ->
       extraction_outcome read_pdf = parser_outcome df filename.
Proof.
  intros Hskip.
  assert (Hp : bank_statement_parser df filename = Ok None).
  { unfold bank_statement_parser.
    rewrite (parse_rows_all_skipped filename df Hskip). reflexivity. }
  assert (Ho : parser_outcome df filename = Ok PyNone).
  { unfold parser_outcome. rewrite Hp. reflexivity. }
  repeat split; auto.
  intros read_pdf H0. rewrite Ho. unfold extraction_outcome.
  rewrite (extract_tables_all_empty read_pdf H0). reflexivity.
Qed.

Lemma bank_statement_parser_empty_is_None_witness :
  bank_statement_parser table_without_transactions (u "a.pdf") = Ok None
  /\ parser_outcome table_without_transactions (u "a.pdf") = Ok PyNone
  /\ forall read_pdf,
       (forall m, attempt_rows read_pdf m = 0) ->
       extraction_outcome read_pdf
       = parser_outcome table_without_transactions (u "a.pdf").
Proof.
  apply (bank_statement_parser_empty_is_None table_without_transactions
           (u "a.pdf")).
  intros r [<- | []]. vm_compute. reflexivity.
Defined.

(* ===================================================================== *)
(** * [LocaleDetector.get_config]                                         *)
(* ===================================================================== *)

Lemma dict_lookup_In {V : Type} (k : str) (d : list (str * V)) (v : V) :
  dict_lookup k d = Some v -> In (k, v) d.
Proof.
  induction d as [| [k' v'] d IH]; simpl.
  - discriminate.
  - unfold str_eqb. destruct (list_eq_dec N.eq_dec k k') as [-> | _].
    + intros [= ->]. left. reflexivity.
    + intros H. right. apply IH, H.
Qed.

Lemma init_inv (default : str) (self : LocaleDetector) :
  LocaleDetector__init__ default = Ok self ->
  default_locale self = default
  /\ _confidence_threshold self = 0.3%Q
  /\ exists config, dict_lookup default LOCALES = Some config.
Proof.
  unfold LocaleDetector__init__.
  destruct (dict_lookup default LOCALES) as [config |]; [| discriminate].
  intros [= <-]. simpl. eauto.
Qed.

(** C10. For a detector the constructor accepted, [get_config] never
    raises and always returns a configuration of the registry: the one
    registered under the code when there is one, the configuration of the
    detector's default locale for every unknown code.  The constructor
    itself rejects an unknown code with [ValueError]. *)
Theorem get_config_unknown_gives_default (default : str)
  (self : LocaleDetector) :
  LocaleDetector__init__ default = Ok self ->
  exists fallback,
    dict_lookup (default_locale self) LOCALES = Some fallback
    /\ (forall locale, dict_lookup locale LOCALES = None ->
                       get_config self locale = Ok fallback)
    /\ (forall locale, exists config,
           get_config self locale = Ok config
           /\ In config (map snd LOCALES))
    /\ (forall unknown, dict_lookup unknown LOCALES = None ->
                        LocaleDetector__init__ unknown = Raise ValueError).
Proof.
  intros Hinit. destruct (init_inv _ _ Hinit) as (Hd & _ & fallback & Hf).
  exists fallback. rewrite Hd. repeat split.
  - exact Hf.
  - intros locale Hnone. unfold get_config, getitem, dict_get.
    rewrite Hd, Hf, Hnone. reflexivity.
  - intros locale. unfold get_config, getitem, dict_get. rewrite Hd, Hf.
    cbn [bind]. destruct (dict_lookup locale LOCALES) as [config |] eqn:Hl.
    + exists config. split; [reflexivity |].
      apply dict_lookup_In in Hl. apply (in_map snd) in Hl. exact Hl.
    + exists fallback. split; [reflexivity |].
      apply dict_lookup_In in Hf. apply (in_map snd) in Hf. exact Hf.
  - intros unknown Hnone. unfold LocaleDetector__init__.
    rewrite Hnone. reflexivity.
Qed.

(** A detector built with default locale [de]. *)
Definition de_detector : LocaleDetector :=
  {| default_locale := u "de"; _confidence_threshold := 0.3%Q |}.

Lemma get_config_unknown_gives_default_witness :
  LocaleDetector__init__ (u "de") = Ok de_detector
  /\ get_config de_detector (u "xx") = Ok de_config.
Proof.
  split; [reflexivity |].
  destruct (get_config_unknown_gives_default (u "de") de_detector eq_refl)
    as (fallback & Hf & Hunknown & _).
  rewrite (Hunknown (u "xx") eq_refl).
  change (Some de_config = Some fallback) in Hf.
  injection Hf as <-. reflexivity.
Defined.


(* ===================================================================== *)
(** * Locale detection ([LocaleDetector])                                 *)
(* ===================================================================== *)

(** The score of one locale on a text: the share of its keywords found. *)
Definition keyword_score (lower : str -> str) (config : LocaleConfig)
  (text : str) : Q :=
  (Z.of_nat (keyword_count lower config text)
   # Pos.of_nat (List.length (keywords config)))%Q.

(** [str.lower] on text whose cased letters are Basic Latin or Latin-1:
    the instance used to run the detector on concrete inputs. *)
Definition lower_latin1 (s : str) : str :=
  map (fun c => if ((65 <=? c) && (c <=? 90)
                    || (0xC0 <=? c) && (c <=? 0xDE) && negb (c =? 0xD7))%N
                then (c + 32)%N else c) s.

Lemma truediv_pos (a b : nat) :
  b <> 0 -> truediv a b = Ok (Z.of_nat a # Pos.of_nat b)%Q.
Proof. destruct b; [congruence | reflexivity]. Qed.

Lemma ratio_bounds (k n : nat) :
  k <= n -> n <> 0 -> (0 <= Z.of_nat k # Pos.of_nat n <= 1)%Q.
Proof.
  intros Hk Hn. unfold Qle. simpl.
  assert (Hpos : Z.pos (Pos.of_nat n) = Z.of_nat n).
  { rewrite <- positive_nat_Z, Nat2Pos.id by exact Hn. reflexivity. }
  rewrite Hpos. lia.
Qed.

Lemma startswith_nil (p : str) : startswith p [] = true -> p = [].
Proof. destruct p; [reflexivity | discriminate]. Qed.

Lemma contains_nil (p : str) : contains p [] = true -> p = [].
Proof.
  simpl. rewrite orb_false_r. apply startswith_nil.
Qed.

(** The first maximum of three scores, the way [max_by_value] finds it. *)
Lemma max_by_value_three (a b c : str) (x y z : Q) :
  exists best conf,
    max_by_value [(a, x); (b, y); (c, z)] = Some (best, conf)
    /\ In (best, conf) [(a, x); (b, y); (c, z)]
    /\ (x <= conf /\ y <= conf /\ z <= conf)%Q.
Proof.
  unfold max_by_value. simpl.
  destruct (Qle_bool y x) eqn:Eyx; simpl.
  - apply Qle_bool_iff in Eyx.
    destruct (Qle_bool z x) eqn:Ezx; simpl.
    + apply Qle_bool_iff in Ezx. exists a, x.
      repeat split; auto using Qle_refl.
    + assert (x < z)%Q.
      { apply Qnot_le_lt. intros H. apply Qle_bool_iff in H. congruence. }
      exists c, z. repeat split; auto using Qle_refl, Qlt_le_weak.
      apply Qle_trans with x; auto using Qlt_le_weak.
  - assert (Hxy : (x < y)%Q).
    { apply Qnot_le_lt. intros H. apply Qle_bool_iff in H. congruence. }
    destruct (Qle_bool z y) eqn:Ezy; simpl.
    + apply Qle_bool_iff in Ezy. exists b, y.
      repeat split; auto using Qle_refl, Qlt_le_weak.
    + assert (y < z)%Q.
      { apply Qnot_le_lt. intros H. apply Qle_bool_iff in H. congruence. }
      exists c, z. repeat split; auto using Qle_refl, Qlt_le_weak.
      apply Qle_trans with y; auto using Qlt_le_weak.
Qed.

Section DetectionProperties.

Variable lower : str -> str.

Lemma keyword_count_le (config : LocaleConfig) (text : str) :
  keyword_count lower config text <= List.length (keywords config).
Proof. unfold keyword_count. apply filter_length_le. Qed.

Lemma registry_keywords (code : str) (config : LocaleConfig) :
  In (code, config) LOCALES ->
  List.length (keywords config) <> 0
  /\ Forall (fun kw => kw <> []) (keywords config).
Proof.
  intros [H | [H | [H | []]]]; injection H as _ <-;
    (split; [vm_compute; discriminate |]);
    repeat (constructor; [vm_compute; discriminate |]); constructor.
Qed.

Lemma keyword_score_bounds (code : str) (config : LocaleConfig) (text : str) :
  In (code, config) LOCALES ->
  (0 <= keyword_score lower config text <= 1)%Q.
Proof.
  intros Hin. apply ratio_bounds.
  - apply keyword_count_le.
  - apply (registry_keywords code config Hin).
Qed.

(** The [scores] dictionary of the registry. *)
Lemma locale_scores_LOCALES (text : str) :
  locale_scores lower LOCALES text
  = Ok [(u "fr", keyword_score lower fr_config text);
        (u "de", keyword_score lower de_config text);
        (u "en", keyword_score lower en_config text)].
Proof.
  unfold LOCALES, locale_scores, keyword_score.
  rewrite !truediv_pos by (vm_compute; discriminate).
  reflexivity.
Qed.

(** Content detection never raises, and a locale it names is a registry
    code. *)
Lemma detect_from_content_total (self : LocaleDetector)
  (df : option DataFrame) :
  exists found confidence,
    detect_from_content lower self df = Ok (found, confidence)
    /\ forall l, found = Some l -> In l (map fst LOCALES).
Proof.
  unfold detect_from_content.
  destruct df as [df |]; [| exists None, 0%Q; split; [easy | discriminate]].
  destruct (df_empty df); [exists None, 0%Q; split; [easy | discriminate] |].
  destruct (content_text lower df) as [| c text'] eqn:Htext;
    [exists None, 0%Q; split; [easy | discriminate] |].
  rewrite locale_scores_LOCALES. cbn [bind].
  destruct (max_by_value_three (u "fr") (u "de") (u "en")
              (keyword_score lower fr_config (c :: text'))
              (keyword_score lower de_config (c :: text'))
              (keyword_score lower en_config (c :: text')))
    as (best & conf & -> & Hin & _).
  destruct (Qle_bool (_confidence_threshold self) conf).
  - exists (Some best), conf. split; [reflexivity |].
    intros l [= <-]. apply (in_map fst) in Hin. exact Hin.
  - exists None, conf. split; [reflexivity | discriminate].
Qed.

(** *** The score in the words of the specification

    The blob is the text of the non-empty cells, case-folded, in reading
    order and separated by single spaces; the score of a locale is the
    number of its keywords that occur in the blob as substrings over the
    number of its keywords. *)

(** [kw] occurs in [text] as a substring. *)
Definition occurs (kw text : str) : Prop :=
  exists pre post, text = pre ++ kw ++ post.

(** [n] of the words [kws] occur in [text]. *)
Inductive found_among (text : str) : list str -> nat -> Prop :=
| found_none : found_among text [] 0
| found_hit (kw : str) (kws : list str) (n : nat) :
    occurs kw text -> found_among text kws n ->
    found_among text (kw :: kws) (S n)
| found_miss (kw : str) (kws : list str) (n : nat) :
    ~ occurs kw text -> found_among text kws n ->
    found_among text (kw :: kws) n.

(** The cells of a row that hold a value. *)
Fixpoint row_cells (r : row) : list str :=
  match r with
  | [] => []
  | Some v :: r' => v :: row_cells r'
  | None :: r' => row_cells r'
  end.

(** Texts put one after the other with one space in between. *)
Fixpoint spaced (parts : list str) : str :=
  match parts with
  | [] => []
  | p :: rest =>
      match rest with
      | [] => p
      | _ :: _ => p ++ 32%N :: spaced rest
      end
  end.

Definition spec_blob (df : DataFrame) : str :=
  spaced (map lower (concat (map row_cells df))).

Definition spec_score (text : str) (config : LocaleConfig) (score : Q)
  : Prop :=
  exists n,
    found_among text (keywords config) n
    /\ score = (Z.of_nat n # Pos.of_nat (List.length (keywords config)))%Q.

Lemma found_among_unique (text : str) (kws : list str) (n m : nat) :
  found_among text kws n -> found_among text kws m -> n = m.
Proof.
  intros Hn. revert m.
  induction Hn as [| kw kws n Hkw _ IH | kw kws n Hkw _ IH]; intros m Hm;
    inversion Hm; subst; try contradiction; auto.
Qed.

(** The score of the specification is a function of the text. *)
Lemma spec_score_unique (text : str) (config : LocaleConfig) (x y : Q) :
  spec_score text config x -> spec_score text config y -> x = y.
Proof.
  intros (n & Hn & ->) (m & Hm & ->).
  rewrite (found_among_unique text (keywords config) n m Hn Hm). reflexivity.
Qed.

(** *** The code against these words *)

Lemma startswith_app (old s : str) :
  startswith old s = true -> exists rest, s = old ++ rest.
Proof.
  revert s. induction old as [| o old IH]; intros s; simpl.
  - intros _. exists s. reflexivity.
  - destruct s as [| c s]; [discriminate |].
    intros H. apply andb_true_iff in H. destruct H as [Hc Hs].
    apply N.eqb_eq in Hc. subst c.
    destruct (IH s Hs) as [rest ->]. exists rest. reflexivity.
Qed.

Lemma startswith_prefix (old rest : str) : startswith old (old ++ rest) = true.
Proof.
  induction old as [| o old IH]; simpl; [reflexivity |].
  rewrite N.eqb_refl, IH. reflexivity.
Qed.

(** [needle in hay] is the substring test. *)
Lemma contains_occurs (needle hay : str) :
  contains needle hay = true <-> occurs needle hay.
Proof.
  induction hay as [| c hay IH]; cbn [contains].
  - rewrite orb_false_r. split.
    + intros H. apply startswith_nil in H. subst needle. exists [], [].
      reflexivity.
    + intros (pre & post & H). symmetry in H.
      apply app_eq_nil in H. destruct H as [_ H].
      apply app_eq_nil in H. destruct H as [-> _]. reflexivity.
  - rewrite orb_true_iff, IH. split.
    + intros [H | (pre & post & ->)].
      * apply startswith_app in H. destruct H as [rest ->].
        exists [], rest. reflexivity.
      * exists (c :: pre), post. reflexivity.
    + intros ([| c' pre] & post & H).
      * left. simpl in H. rewrite H. apply startswith_prefix.
      * right. injection H as _ ->. exists pre, post. reflexivity.
Qed.

Lemma present_row_cells (r : row) : present r = row_cells r.
Proof.
  unfold present. induction r as [| [v |] r IH]; simpl; congruence.
Qed.

Lemma join_spaced (parts : list str) : join (u " ") parts = spaced parts.
Proof.
  induction parts as [| p [| q rest] IH]; [reflexivity | reflexivity |].
  change (join (u " ") (p :: q :: rest))
    with (p ++ 32%N :: join (u " ") (q :: rest)).
  rewrite IH. reflexivity.
Qed.

(** The text the code scans is the blob. *)
Lemma content_text_blob (df : DataFrame) : content_text lower df = spec_blob df.
Proof.
  unfold content_text, spec_blob. rewrite join_spaced. do 2 f_equal.
  induction df as [| r df IH]; simpl; [reflexivity |].
  rewrite present_row_cells, IH. reflexivity.
Qed.

(** Python lower-cases each keyword before looking for it; the keywords
    of the registry are written in lower case. *)
Hypothesis lower_keywords :
  forall code config kw,
    In (code, config) LOCALES -> In kw (keywords config) -> lower kw = kw.

(** The hits the code counts are the keywords that occur in the text. *)
Lemma keyword_count_found (code : str) (config : LocaleConfig) (text : str) :
  In (code, config) LOCALES ->
  found_among text (keywords config) (keyword_count lower config text).
Proof.
  intros Hin. unfold keyword_count.
  pose proof (lower_keywords code config) as Hlow.
  specialize (fun kw => Hlow kw Hin).
  induction (keywords config) as [| kw kws IH]; cbn [filter List.length].
  - constructor.
  - rewrite (Hlow kw) by (left; reflexivity).
    assert (IH' : found_among text kws
                    (List.length
                       (filter (fun keyword => contains (lower keyword) text)
                          kws))).
    { apply IH. intros k Hk. apply Hlow. right. exact Hk. }
    destruct (contains kw text) eqn:Hc; cbn [List.length].
    + apply found_hit; [apply contains_occurs; exact Hc | exact IH'].
    + apply found_miss; [| exact IH'].
      intros Ho. apply contains_occurs in Ho. congruence.
Qed.

Lemma keyword_score_spec (code : str) (config : LocaleConfig) (df : DataFrame) :
  In (code, config) LOCALES ->
  spec_score (spec_blob df) config
    (keyword_score lower config (content_text lower df)).
Proof.
  intros Hin. exists (keyword_count lower config (content_text lower df)).
  split; [| reflexivity].
  rewrite <- content_text_blob. apply (keyword_count_found code config _ Hin).
Qed.

Lemma keyword_count_empty_text (code : str) (config : LocaleConfig) :
  In (code, config) LOCALES -> keyword_count lower config [] = 0.
Proof.
  intros Hin. destruct (registry_keywords code config Hin) as [_ Hne].
  pose proof (lower_keywords code config) as Hlow.
  specialize (fun kw => Hlow kw Hin).
  unfold keyword_count.
  induction Hne as [| kw kws Hkw _ IH]; simpl; [reflexivity |].
  rewrite (Hlow kw) by (left; reflexivity).
  destruct (startswith kw [] || false) eqn:E.
  - apply contains_nil in E. contradiction.
  - apply IH. intros k Hk. apply Hlow. right. exact Hk.
Qed.

(** C5. For a non-empty table and a detector the constructor built: each
    locale of the registry has a score, the number of its keywords that
    occur as substrings in the blob (the case-folded non-empty cells,
    joined by single spaces) over the number of its keywords, and that
    score lies in [0, 1]; [detect_from_content] returns the maximal score
    as confidence, together with a locale that has it when that score is
    at least 0.3 and with no locale when it is below 0.3. *)
Theorem detect_from_content_max_score (default : str)
  (self : LocaleDetector) (df : DataFrame) :
  LocaleDetector__init__ default = Ok self ->
  df_empty df = false ->
  exists score : LocaleConfig -> Q,
    (forall code config, In (code, config) LOCALES ->
        spec_score (spec_blob df) config (score config)
        /\ (0 <= score config <= 1)%Q)
    /\ exists best config confidence,
         In (best, config) LOCALES
         /\ (forall code' config', In (code', config') LOCALES ->
                                   (score config' <= score config)%Q)
         /\ (confidence == score config)%Q
         /\ detect_from_content lower self (Some df)
            = Ok (if Qle_bool 0.3 (score config) then Some best else None,
                  confidence).
Proof.
  intros Hinit Hne.
  exists (fun config => keyword_score lower config (content_text lower df)).
  split.
  - intros code config Hin. split.
    + apply (keyword_score_spec code config df Hin).
    + apply (keyword_score_bounds code config _ Hin).
  - destruct (init_inv _ _ Hinit) as (_ & Hthr & _).
    unfold detect_from_content. rewrite Hne, Hthr.
    destruct (content_text lower df) as [| c text'] eqn:Htext.
    + assert (Hzero : forall code' config', In (code', config') LOCALES ->
                keyword_score lower config' [] = (0 # Pos.of_nat
                  (List.length (keywords config')))%Q).
      { intros code' config' Hin. unfold keyword_score.
        rewrite (keyword_count_empty_text code' config' Hin). reflexivity. }
      exists (u "fr"), fr_config, 0%Q.
      split; [left; reflexivity |]. split; [| split].
      * intros code' config' Hin.
        rewrite (Hzero code' config' Hin), (Hzero (u "fr") fr_config)
          by (left; reflexivity).
        unfold Qle. simpl. lia.
      * rewrite (Hzero (u "fr") fr_config) by (left; reflexivity).
        reflexivity.
      * rewrite (Hzero (u "fr") fr_config) by (left; reflexivity).
        reflexivity.
    + rewrite locale_scores_LOCALES. cbn [bind].
      destruct (max_by_value_three (u "fr") (u "de") (u "en")
                  (keyword_score lower fr_config (c :: text'))
                  (keyword_score lower de_config (c :: text'))
                  (keyword_score lower en_config (c :: text')))
        as (best & conf & -> & Hin & Hfr & Hde & Hen).
      assert (Hbest : exists config,
                 In (best, config) LOCALES
                 /\ conf = keyword_score lower config (c :: text')).
      { destruct Hin as [H | [H | [H | []]]]; injection H as <- <-;
          [exists fr_config | exists de_config | exists en_config];
          (split; [unfold LOCALES; simpl; tauto | reflexivity]). }
      destruct Hbest as (config & Hreg & ->).
      exists best, config, (keyword_score lower config (c :: text')).
      split; [exact Hreg |]. split; [| split].
      * intros code' config' [H | [H | [H | []]]]; injection H as _ <-;
          assumption.
      * reflexivity.
      * destruct (Qle_bool 0.3 (keyword_score lower config (c :: text')));
          reflexivity.
Qed.

End DetectionProperties.

(** A table whose text holds seven of the 22 English keywords. *)
Definition english_table : DataFrame :=
  [[Some (u "Balance"); Some (u "Credit Debit")];
   [Some (u "Transfer payment amount date"); None]].

Definition fr_detector : LocaleDetector :=
  {| default_locale := u "fr"; _confidence_threshold := 0.3%Q |}.

(** The keywords of the registry are in lower case. *)
Lemma lower_latin1_keywords (code : str) (config : LocaleConfig) (kw : str) :
  In (code, config) LOCALES -> In kw (keywords config) ->
  lower_latin1 kw = kw.
Proof.
  assert (H : forallb (fun kv => forallb (fun kw => str_eqb (lower_latin1 kw) kw)
                                   (keywords (snd kv))) LOCALES = true)
    by (vm_compute; reflexivity).
  intros Hin Hkw. rewrite forallb_forall in H. specialize (H _ Hin).
  rewrite forallb_forall in H. specialize (H kw Hkw).
  unfold str_eqb in H.
  destruct (list_eq_dec N.eq_dec (lower_latin1 kw) kw); [assumption |].
  discriminate.
Qed.

Lemma detect_from_content_max_score_witness :
  exists score : LocaleConfig -> Q,
    (forall code config, In (code, config) LOCALES ->
        spec_score (spec_blob lower_latin1 english_table) config
          (score config)
        /\ (0 <= score config <= 1)%Q)
    /\ exists best config confidence,
         In (best, config) LOCALES
         /\ (forall code' config', In (code', config') LOCALES ->
                                   (score config' <= score config)%Q)
         /\ (confidence == score config)%Q
         /\ detect_from_content lower_latin1 fr_detector (Some english_table)
            = Ok (if Qle_bool 0.3 (score config) then Some best else None,
                  confidence).
Proof.
  exact (detect_from_content_max_score lower_latin1 lower_latin1_keywords
           (u "fr") fr_detector english_table eq_refl eq_refl).
Defined.

(** On that table the English score, 7/22, is the maximum and passes the
    threshold. *)
Example detect_from_content_english :
  detect_from_content lower_latin1 fr_detector (Some english_table)
  = Ok (Some (u "en"), (7 # 22)%Q).
Proof. vm_compute. reflexivity. Qed.


(** ** [detect_locale] *)

(** The method string reported when content analysis wins. *)
Definition content_method (confidence : Q) : str :=
  u "content (confidence: " ++ format_percent confidence ++ u ")".

(** An explicit locale counts when it is a non-empty registry code. *)
Definition explicit_valid (explicit_locale : option str) : option str :=
  match explicit_locale with
  | Some e =>
      match e, dict_lookup e LOCALES with
      | _ :: _, Some _ => Some e
      | _, _ => None
      end
  | None => None
  end.

(** C2, as stated, fails: when content analysis decides, the method is
    not the tag [content] but a text that embeds the confidence. *)
Lemma detect_locale_content_method_is_not_a_tag :
  detect_locale lower_latin1 fr_detector (u "statement.pdf")
    (Some english_table) None
  = Ok (u "en", u "content (confidence: 31.82%)")
  /\ ~ In (u "content (confidence: 31.82%)")
          [u "explicit"; u "filename"; u "content"; u "default"].
Proof.
  split.
  - vm_compute. reflexivity.
  - vm_compute. intros [H | [H | [H | [H | []]]]]; discriminate H.
Qed.

Section DetectLocale.

Variable lower : str -> str.

Lemma detect_from_filename_code (filename l : str) :
  detect_from_filename lower filename = Some l -> In l (map fst LOCALES).
Proof.
  unfold detect_from_filename.
  destruct (find _ lang_indicators) as [[locale inds] |] eqn:Hfind;
    [| discriminate].
  intros [= <-]. apply find_some in Hfind. destruct Hfind as [Hin _].
  apply (in_map fst) in Hin. exact Hin.
Qed.

Lemma registry_code_nonempty (l : str) : In l (map fst LOCALES) -> l <> [].
Proof.
  intros [<- | [<- | [<- | []]]]; discriminate.
Qed.

(** C2, amended. The four signals are consulted in strict priority order
    and the first that succeeds decides: a non-empty explicit locale of
    the registry (an unknown one is skipped), then the filename
    indicators, then content analysis when a table is given, then the
    detector's default.  The call returns normally; the method is
    [explicit], [filename] or [default] for those signals, and for
    content analysis the text [content (confidence: P)] with P the
    confidence as a percentage with two decimals. *)
Theorem detect_locale_priority (self : LocaleDetector) (filename : str)
  (df : option DataFrame) (explicit_locale : option str) :
  let result := detect_locale lower self filename df explicit_locale in
  (forall e, explicit_valid explicit_locale = Some e ->
             result = Ok (e, u "explicit"))
  /\ (explicit_valid explicit_locale = None ->
      (forall l, detect_from_filename lower filename = Some l ->
                 result = Ok (l, u "filename"))
      /\ (detect_from_filename lower filename = None ->
          (forall table l confidence,
              df = Some table ->
              detect_from_content lower self df = Ok (Some l, confidence) ->
              result = Ok (l, content_method confidence))
          /\ ((df = None
               \/ exists confidence,
                    detect_from_content lower self df = Ok (None, confidence))
              -> result = Ok (default_locale self, u "default"))))
  /\ exists l method,
       result = Ok (l, method)
       /\ (method = u "explicit" \/ method = u "filename"
           \/ method = u "default"
           \/ exists confidence, method = content_method confidence).
Proof.
  cbv zeta. unfold detect_locale.
  assert (Hexp :
    match explicit_locale with
    | Some ((_ :: _) as e) =>
        match dict_lookup e LOCALES with
        | Some _ => Some e
        | None => None
        end
    | _ => None
    end = explicit_valid explicit_locale).
  { unfold explicit_valid. destruct explicit_locale as [[| c e] |];
      reflexivity. }
  rewrite Hexp. clear Hexp.
  destruct (explicit_valid explicit_locale) as [e |].
  { split; [| split].
    - intros e' [= <-]. reflexivity.
    - discriminate.
    - exists e, (u "explicit"). auto. }
  destruct (detect_from_filename lower filename) as [l |] eqn:Hfile.
  { pose proof (registry_code_nonempty l
                  (detect_from_filename_code filename l Hfile)) as Hne.
    destruct l as [| c l]; [congruence |].
    split; [| split].
    - discriminate.
    - intros _. split; [| discriminate].
      intros l' [= <-]. reflexivity.
    - exists (c :: l), (u "filename"). auto. }
  destruct df as [table |].
  - destruct (detect_from_content_total lower self (Some table))
      as (found & confidence & Hcontent & Hcode).
    rewrite Hcontent. cbn [bind].
    destruct found as [l |].
    + pose proof (registry_code_nonempty l (Hcode l eq_refl)) as Hne.
      destruct l as [| c l]; [congruence |].
      split; [| split].
      * discriminate.
      * intros _. split; [discriminate |]. intros _. split.
        -- intros table' l' confidence' _ [= <- <-]. reflexivity.
        -- intros [H | [confidence' H]]; discriminate H.
      * exists (c :: l), (content_method confidence).
        split; [reflexivity |]. right. right. right.
        exists confidence. reflexivity.
    + split; [| split].
      * discriminate.
      * intros _. split; [discriminate |]. intros _. split.
        -- intros table' l' confidence' _ H. discriminate H.
        -- intros _. reflexivity.
      * exists (default_locale self), (u "default"). auto.
  - cbn [bind]. split; [| split].
    + discriminate.
    + intros _. split; [discriminate |]. intros _. split.
      * intros table' l' confidence' H. discriminate H.
      * intros _. reflexivity.
    + exists (default_locale self), (u "default"). auto.
Qed.

End DetectLocale.

(** An unknown explicit locale is skipped and the filename decides, even
    though the content would name English. *)
Lemma detect_locale_priority_witness :
  explicit_valid (Some (u "xx")) = None
  /\ detect_locale lower_latin1 fr_detector (u "statement_de.pdf")
       (Some english_table) (Some (u "xx"))
     = Ok (u "de", u "filename").
Proof.
  split; [reflexivity |].
  exact (proj1 (proj1 (proj2 (detect_locale_priority lower_latin1 fr_detector
                                (u "statement_de.pdf") (Some english_table)
                                (Some (u "xx"))))
                      eq_refl)
               (u "de") eq_refl).
Defined.


(* ===================================================================== *)
(** * Amount normalisation ([clean_amount])                               *)
(* ===================================================================== *)

(** [float(s)] as [clean_amount] uses it: the number, or [None] when the
    conversion fails. *)
Definition float_or_none (s : str) : option pyfloat :=
  match float s with
  | Ok x => Some x
  | Raise _ => None
  end.

(** The separator step shared by both pipelines. *)
Definition drop_separators (config : LocaleConfig) (text : str) : str :=
  if str_eqb (decimal_separator config) (u ",")
  then replace (u ",") (u ".") (replace (thousands_separator config) [] text)
  else replace (thousands_separator config) [] text.

(** The pipeline in the words of the specification: all whitespace is
    removed, and plus signs are stripped at the front only. *)
Definition remove_whitespace (s : str) : str :=
  filter (fun c => negb (is_space c)) s.

Fixpoint strip_leading_plus (s : str) : str :=
  match s with
  | 43%N :: s' => strip_leading_plus s'
  | _ => s
  end.

Definition clean_amount_as_specified (text : option str)
  (config : LocaleConfig) : option pyfloat :=
  match text with
  | None => None
  | Some [] => None
  | Some text =>
      let text := sub (AnyOf (u "€$£¥")) [] text in
      let text := sub currency_codes [] text in
      let text := remove_whitespace text in
      let text := drop_separators config text in
      float_or_none (strip_leading_plus text)
  end.

(** An amount with a no-break space (U+00A0) as thousands separator. *)
Definition nbsp_amount : str := u "1" ++ [0xA0%N] ++ u "234,56".

(** C3, as stated, fails on two steps: the code removes every plus sign,
    not only leading ones, and removes space characters only, not all
    whitespace. *)
Lemma clean_amount_is_not_the_specified_pipeline :
  (clean_amount (Some (u "1+2")) (u "fr") (Some fr_config)
   = Ok (Some (lit 12))
   /\ clean_amount_as_specified (Some (u "1+2")) fr_config = None)
  /\
  (clean_amount (Some nbsp_amount) (u "fr") (Some fr_config) = Ok None
   /\ clean_amount_as_specified (Some nbsp_amount) fr_config
      = Some (lit 1234.56)).
Proof.
  split; split; vm_compute; reflexivity.
Qed.

Lemma float_raises_ValueError (s : str) (e : exn) :
  float s = Raise e -> e = ValueError.
Proof.
  unfold float.
  destruct (to_ascii_decimal s) as [a |]; [| congruence].
  destruct (drop_underscores 0%N (strip_ascii a)) as [b |]; [| congruence].
  destruct (parse_float_body b); congruence.
Qed.

Lemma clean_amount_float (text : str) :
  try_except (x <- float text ;; Ok (Some x))
    (fun e => match e with
              | ValueError => Ok None
              | _ => Raise e
              end)
  = Ok (float_or_none text).
Proof.
  unfold float_or_none.
  destruct (float text) as [x | e] eqn:Hf; simpl.
  - reflexivity.
  - rewrite (float_raises_ValueError text e Hf). reflexivity.
Qed.

Lemma config_or_lookup_ok (locale : str) (locale_config : option LocaleConfig) :
  exists config, config_or_lookup locale locale_config = Ok config.
Proof.
  destruct locale_config as [config |]; simpl; eauto.
Qed.

(** Removing any separator from [abc] leaves one of seven texts. *)
Lemma replace_in_abc (old : str) :
  In (replace old [] (u "abc"))
     [u "abc"; u "bc"; u "ac"; u "ab"; u "c"; u "a"; []].
Proof.
  change (u "abc") with [97; 98; 99]%N.
  destruct old as [| c1 [| c2 [| c3 [| c4 old]]]];
    cbn -[In u];
    repeat match goal with
      | |- context [(?a =? ?b)%N] =>
          destruct (N.eqb_spec a b); [subst |]; cbn -[In u]
      end;
    vm_compute; auto 10.
Qed.

Lemma amount_text_abc_not_a_number (config : LocaleConfig) :
  float_or_none (amount_text (u "abc") config) = None.
Proof.
  unfold amount_text.
  change (replace (u " ") []
            (sub currency_codes [] (sub (AnyOf (u "€$£¥")) [] (strip (u "abc")))))
    with (u "abc").
  pose proof (replace_in_abc (thousands_separator config)) as Hin.
  destruct (str_eqb (decimal_separator config) (u ","));
    simpl in Hin;
    repeat (destruct Hin as [<- | Hin]; [vm_compute; reflexivity |]);
    contradiction.
Qed.

(** C3, amended. [clean_amount] never raises.  A missing or empty input
    gives [None].  Otherwise the text is stripped of surrounding
    whitespace, the currency symbols and the codes EUR, USD, GBP, CHF (in
    any case) are removed, every space character is removed, the
    thousands separator is removed (and, for a comma decimal separator,
    every remaining comma becomes a period), every plus sign is removed
    while minus signs stay, and the result is the float conversion of
    what is left, or [None] when that conversion fails.  The five sample
    values of the specification hold. *)
Theorem clean_amount_pipeline :
  (forall text locale locale_config,
      exists v, clean_amount text locale locale_config = Ok v)
  /\ (forall locale locale_config,
         clean_amount None locale locale_config = Ok None
         /\ clean_amount (Some []) locale locale_config = Ok None)
  /\ (forall text locale config,
         text <> [] ->
         clean_amount (Some text) locale (Some config)
         = Ok (float_or_none
                 (replace (u "+") []
                    (drop_separators config
                       (replace (u " ") []
                          (sub currency_codes []
                             (sub (AnyOf (u "€$£¥")) [] (strip text))))))))
  /\ clean_amount (Some (u "1 234,56")) (u "fr") (Some fr_config)
     = Ok (Some (lit 1234.56))
  /\ clean_amount (Some (u "1.234,56")) (u "de") (Some de_config)
     = Ok (Some (lit 1234.56))
  /\ clean_amount (Some (u "1,234.56")) (u "en") (Some en_config)
     = Ok (Some (lit 1234.56))
  /\ clean_amount (Some (u "-1 234,56 €")) (u "fr") (Some fr_config)
     = Ok (Some (lit (-1234.56)))
  /\ (forall locale config,
         clean_amount (Some (u "abc")) locale (Some config) = Ok None).
Proof.
  split; [| split; [| split; [| split; [| split; [| split; [| split]]]]]].
  - intros [[| c text] |] locale locale_config; simpl; eauto.
    destruct (config_or_lookup_ok locale locale_config) as [config ->].
    cbn [bind]. rewrite clean_amount_float. eauto.
  - intros locale locale_config. split; reflexivity.
  - intros [| c text] locale config Hne; [congruence |].
    unfold clean_amount, config_or_lookup. cbn [bind].
    rewrite clean_amount_float. reflexivity.
  - vm_compute. reflexivity.
  - vm_compute. reflexivity.
  - vm_compute. reflexivity.
  - vm_compute. reflexivity.
  - intros locale config.
    change (u "abc") with [97; 98; 99]%N.
    unfold clean_amount, config_or_lookup. cbn [bind].
    rewrite clean_amount_float.
    change [97; 98; 99]%N with (u "abc").
    rewrite amount_text_abc_not_a_number. reflexivity.
Qed.

Lemma clean_amount_pipeline_witness :
  clean_amount (Some (u "+ 12,50 EUR")) (u "fr") (Some fr_config)
  = Ok (float_or_none (u "12.50")).
Proof.
  refine (eq_trans
            (proj1 (proj2 (proj2 clean_amount_pipeline))
               (u "+ 12,50 EUR") (u "fr") fr_config _) _).
  - discriminate.
  - vm_compute. reflexivity.
Defined.


(* ===================================================================== *)
(** * Matches and surrounding whitespace                                  *)
(* ===================================================================== *)

(** [parse_date] searches the stripped text.  For a pattern that cannot
    match the empty text, begins with a character that is no whitespace
    and never ends on one, the search finds the same in the text itself.
    The three conditions are checked on the pattern. *)

Fixpoint nullable (r : regex) : bool :=
  match r with
  | Eps => true
  | Cls _ => false
  | Cat r1 r2 => nullable r1 && nullable r2
  | Alt r1 r2 => nullable r1 || nullable r2
  | Star _ => true
  end.

(** The whitespace characters, listed. *)
Definition space_chars : list char :=
  [0x09; 0x0A; 0x0B; 0x0C; 0x0D; 0x1C; 0x1D; 0x1E; 0x1F; 0x20; 0x85; 0xA0;
   0x1680; 0x2000; 0x2001; 0x2002; 0x2003; 0x2004; 0x2005; 0x2006;
   0x2007; 0x2008; 0x2009; 0x200A; 0x2028; 0x2029; 0x202F; 0x205F;
   0x3000]%N.

Definition rejects_space (p : char -> bool) : bool :=
  forallb (fun c => negb (p c)) space_chars.

(** Every match begins with a character that is no whitespace. *)
Fixpoint head_safe (r : regex) : bool :=
  match r with
  | Eps => false
  | Cls p => rejects_space p
  | Cat r1 _ => head_safe r1
  | Alt r1 r2 => head_safe r1 && head_safe r2
  | Star _ => false
  end.

(** No match ends on a whitespace character. *)
Fixpoint tail_safe (r : regex) : bool :=
  match r with
  | Eps => true
  | Cls p => rejects_space p
  | Cat r1 r2 => tail_safe r2 && (tail_safe r1 || negb (nullable r2))
  | Alt r1 r2 => tail_safe r1 && tail_safe r2
  | Star _ => false
  end.

Definition strip_invariant (r : regex) : bool :=
  negb (nullable r) && head_safe r && tail_safe r.

Lemma is_space_listed (c : char) : is_space c = true -> In c space_chars.
Proof.
  unfold is_space. intros H.
  repeat (apply orb_true_iff in H; destruct H as [H | H]);
    repeat match goal with
      | H : (_ && _)%bool = true |- _ =>
          apply andb_true_iff in H; destruct H
      | H : (_ <=? _)%N = true |- _ => apply N.leb_le in H
      | H : (_ =? _)%N = true |- _ => apply N.eqb_eq in H
      end;
    unfold space_chars; simpl; lia.
Qed.

Lemma rejects_space_sound (p : char -> bool) (c : char) :
  rejects_space p = true -> is_space c = true -> p c = false.
Proof.
  intros Hp Hc. unfold rejects_space in Hp.
  rewrite forallb_forall in Hp.
  specialize (Hp c (is_space_listed c Hc)).
  destruct (p c); [discriminate | reflexivity].
Qed.

Section MatcherLemmas.

Context {A : Type}.

(** On the empty text only the continuation can succeed. *)
Lemma star_loop_nil (body : str -> (str -> option A) -> option A)
  (k : str -> option A) :
  (forall K, K [] = None -> body [] K = None) ->
  k [] = None ->
  forall fuel, star_loop body k fuel [] = None.
Proof.
  intros Hbody Hk [| fuel]; simpl.
  - exact Hk.
  - rewrite Hbody by reflexivity. exact Hk.
Qed.

Lemma run_nil (r : regex) :
  forall k : str -> option A, k [] = None -> run r [] k = None.
Proof.
  induction r as [| p | r1 IH1 r2 IH2 | r1 IH1 r2 IH2 | r1 IH1];
    intros k Hk; simpl.
  - exact Hk.
  - reflexivity.
  - apply IH1. apply IH2. exact Hk.
  - rewrite IH1 by exact Hk. apply IH2. exact Hk.
  - exact Hk.
Qed.

Lemma run_nil_not_nullable (r : regex) :
  nullable r = false -> forall k : str -> option A, run r [] k = None.
Proof.
  induction r as [| p | r1 IH1 r2 IH2 | r1 IH1 r2 IH2 | r1 IH1];
    simpl; intros Hn k.
  - discriminate.
  - reflexivity.
  - apply andb_false_iff in Hn. destruct Hn as [Hn | Hn].
    + apply IH1. exact Hn.
    + apply run_nil. apply IH2. exact Hn.
  - apply orb_false_iff in Hn. destruct Hn as [Hn1 Hn2].
    rewrite IH1 by exact Hn1. apply IH2. exact Hn2.
  - discriminate.
Qed.

Lemma run_head_space (r : regex) (c : char) :
  head_safe r = true -> is_space c = true ->
  forall (s : str) (k : str -> option A), run r (c :: s) k = None.
Proof.
  intros Hr Hc.
  induction r as [| p | r1 IH1 r2 IH2 | r1 IH1 r2 IH2 | r1 IH1];
    simpl in Hr; intros s k; simpl.
  - discriminate.
  - rewrite (rejects_space_sound p c Hr Hc). reflexivity.
  - apply IH1. exact Hr.
  - apply andb_true_iff in Hr. destruct Hr as [H1 H2].
    rewrite IH1 by exact H1. apply IH2. exact H2.
  - discriminate.
Qed.

End MatcherLemmas.

Section TrailingSpace.

Context {A B : Type}.
Variable f : A -> B.
Variable c : char.

(** The continuations [k] on a text and [k'] on the text followed by [c]
    agree. *)
Definition agree (k : str -> option A) (k' : str -> option B) : Prop :=
  forall y, k' (y ++ [c]) = option_map f (k y).

Lemma length_snoc_ltb (y x : str) :
  (List.length (y ++ [c]) <? List.length (x ++ [c]))%nat
  = (List.length y <? List.length x)%nat.
Proof.
  rewrite !length_app. simpl.
  destruct (Nat.ltb_spec (List.length y) (List.length x));
    [apply Nat.ltb_lt | apply Nat.ltb_ge]; lia.
Qed.

(** Repetition, when the body carries agreement over. *)
Lemma star_loop_snoc
  (body : str -> (str -> option A) -> option A)
  (body' : str -> (str -> option B) -> option B)
  (k : str -> option A) (k' : str -> option B) :
  (forall x K K', agree K K' -> K' [] = None ->
                  body' (x ++ [c]) K' = option_map f (body x K)) ->
  (forall K, K [] = None -> body [] K = None) ->
  (forall K', K' [] = None -> body' [] K' = None) ->
  agree k k' -> k' [] = None ->
  forall n x, List.length x <= n ->
    star_loop body' k' (S n) (x ++ [c]) = option_map f (star_loop body k n x).
Proof.
  intros Hbody Hnil Hnil' Hk Hk0.
  induction n as [| n IH]; intros x Hlen.
  - destruct x as [| a x]; [| simpl in Hlen; lia].
    cbn [star_loop].
    rewrite (Hbody [] (fun _ => None)).
    + rewrite Hnil by reflexivity. simpl. apply (Hk []).
    + intros y. rewrite length_app. simpl.
      replace (List.length y + 1 <? 1)%nat with false
        by (symmetry; apply Nat.ltb_ge; lia).
      reflexivity.
    + simpl. exact Hk0.
  - cbn [star_loop].
    rewrite (Hbody x
               (fun s' => if (List.length s' <? List.length x)%nat
                          then star_loop body k n s' else None)).
    + rewrite Hk.
      destruct (body x _); reflexivity.
    + intros y. rewrite length_snoc_ltb.
      destruct (Nat.ltb_spec (List.length y) (List.length x)).
      * apply IH. lia.
      * reflexivity.
    + cbv beta.
      replace (List.length (@nil char) <? List.length (x ++ [c]))%nat
        with true
        by (symmetry; apply Nat.ltb_lt; rewrite length_app; simpl; lia).
      rewrite Hnil' by reflexivity. exact Hk0.
Qed.

End TrailingSpace.

(** A match attempt on a text followed by one more character behaves as
    on the text, provided the continuation does and nothing succeeds at
    the very end. *)
Lemma run_snoc {A B : Type} (f : A -> B) (c : char) (r : regex) :
  forall (x : str) (k : str -> option A) (k' : str -> option B),
    agree f c k k' -> k' [] = None ->
    run r (x ++ [c]) k' = option_map f (run r x k).
Proof.
  induction r as [| p | r1 IH1 r2 IH2 | r1 IH1 r2 IH2 | r1 IH1];
    intros x k k' Hk Hk0; simpl.
  - apply Hk.
  - destruct x as [| a x]; simpl.
    + rewrite Hk0. destruct (p c); reflexivity.
    + destruct (p a); [apply Hk | reflexivity].
  - apply IH1.
    + intros y. apply IH2; assumption.
    + apply run_nil. exact Hk0.
  - rewrite (IH1 x k k' Hk Hk0), (IH2 x k k' Hk Hk0).
    destruct (run r1 x k); reflexivity.
  - rewrite length_app. simpl. rewrite Nat.add_1_r.
    apply star_loop_snoc; auto.
    + intros K HK. apply run_nil. exact HK.
    + intros K' HK'. apply run_nil. exact HK'.
Qed.

(** The same for a pattern whose matches never end on whitespace, without
    any condition at the very end. *)
Lemma run_snoc_tail_safe {A B : Type} (f : A -> B) (c : char) (r : regex) :
  tail_safe r = true -> is_space c = true ->
  forall (x : str) (k : str -> option A) (k' : str -> option B),
    agree f c k k' ->
    run r (x ++ [c]) k' = option_map f (run r x k).
Proof.
  intros Hr Hc.
  induction r as [| p | r1 IH1 r2 IH2 | r1 IH1 r2 IH2 | r1 IH1];
    simpl in Hr; intros x k k' Hk; simpl.
  - apply Hk.
  - destruct x as [| a x]; simpl.
    + rewrite (rejects_space_sound p c Hr Hc). reflexivity.
    + destruct (p a); [apply Hk | reflexivity].
  - apply andb_true_iff in Hr. destruct Hr as [H2 H1].
    apply orb_true_iff in H1. destruct H1 as [H1 | Hn].
    + apply IH1; [exact H1 |]. intros y. apply IH2; assumption.
    + apply run_snoc.
      * intros y. apply IH2; assumption.
      * apply run_nil_not_nullable.
        destruct (nullable r2); [discriminate | reflexivity].
  - apply andb_true_iff in Hr. destruct Hr as [H1 H2].
    rewrite (IH1 H1 x k k' Hk), (IH2 H2 x k k' Hk).
    destruct (run r1 x k); reflexivity.
  - discriminate.
Qed.

Section SearchAndStrip.

Variable r : regex.
Hypothesis r_ok : strip_invariant r = true.

Lemma strip_invariant_parts :
  nullable r = false /\ head_safe r = true /\ tail_safe r = true.
Proof.
  unfold strip_invariant in r_ok.
  apply andb_true_iff in r_ok. destruct r_ok as [H Ht].
  apply andb_true_iff in H. destruct H as [Hn Hh].
  destruct (nullable r); [discriminate | auto].
Qed.

Lemma search_nil : search r [] = None.
Proof.
  destruct strip_invariant_parts as (Hn & _ & _).
  simpl. unfold match_at. rewrite run_nil_not_nullable by exact Hn.
  reflexivity.
Qed.

Lemma search_lstrip (s : str) : search r (lstrip s) = search r s.
Proof.
  destruct strip_invariant_parts as (_ & Hh & _).
  induction s as [| c s IH]; simpl lstrip.
  - reflexivity.
  - destruct (is_space c) eqn:Hc; [| reflexivity].
    rewrite IH. simpl. unfold match_at.
    rewrite run_head_space by assumption. reflexivity.
Qed.

Lemma consumed_snoc (s rest : str) (c : char) :
  consumed (s ++ [c]) (rest ++ [c]) = consumed s rest.
Proof.
  unfold consumed. rewrite !length_app. simpl.
  replace (List.length s + 1 - (List.length rest + 1))
    with (List.length s - List.length rest) by lia.
  rewrite firstn_app.
  replace (List.length s - List.length rest - List.length s) with 0 by lia.
  simpl. apply app_nil_r.
Qed.

Lemma search_snoc_space (c : char) (s : str) :
  is_space c = true -> search r (s ++ [c]) = search r s.
Proof.
  intros Hc. destruct strip_invariant_parts as (Hn & _ & Ht).
  assert (Hm : forall x, match_at r (x ++ [c])
                         = option_map (fun rest => rest ++ [c]) (match_at r x)).
  { intros x. unfold match_at.
    apply run_snoc_tail_safe; try assumption.
    intros y. reflexivity. }
  induction s as [| a s IH].
  - assert (E : match_at r [] = None).
    { unfold match_at. apply run_nil_not_nullable. exact Hn. }
    pose proof (Hm []) as E1. rewrite E in E1. simpl in E1.
    simpl app. cbn [search]. rewrite E1, E. reflexivity.
  - change ((a :: s) ++ [c]) with (a :: (s ++ [c])).
    cbn [search].
    change (a :: (s ++ [c])) with ((a :: s) ++ [c]).
    rewrite Hm.
    destruct (match_at r (a :: s)) as [rest |]; cbn [option_map].
    + rewrite consumed_snoc. reflexivity.
    + exact IH.
Qed.

Lemma search_rev_lstrip (l : str) :
  search r (rev (lstrip l)) = search r (rev l).
Proof.
  induction l as [| c l IH]; simpl lstrip.
  - reflexivity.
  - destruct (is_space c) eqn:Hc; [| reflexivity].
    rewrite IH. simpl rev. symmetry. apply search_snoc_space. exact Hc.
Qed.

Lemma search_strip (s : str) : search r (strip s) = search r s.
Proof.
  unfold strip, rstrip. rewrite search_rev_lstrip, rev_involutive.
  apply search_lstrip.
Qed.

End SearchAndStrip.

Lemma first_match_strip (patterns : list regex) (text : str) :
  forallb strip_invariant patterns = true ->
  first_match patterns (strip text) = first_match patterns text.
Proof.
  induction patterns as [| p patterns IH]; simpl; intros H.
  - reflexivity.
  - apply andb_true_iff in H. destruct H as [Hp Hrest].
    rewrite (search_strip p Hp), (IH Hrest). reflexivity.
Qed.

Lemma first_match_nil (patterns : list regex) :
  forallb strip_invariant patterns = true -> first_match patterns [] = None.
Proof.
  induction patterns as [| p patterns IH]; simpl; intros H.
  - reflexivity.
  - apply andb_true_iff in H. destruct H as [Hp Hrest].
    change (match match_at p [] with
            | Some rest => Some (consumed [] rest)
            | None => None
            end) with (search p []).
    rewrite (search_nil p Hp). apply IH. exact Hrest.
Qed.

(** Every date pattern of the registry passes the check. *)
Lemma registry_date_patterns (code : str) (config : LocaleConfig) :
  In (code, config) LOCALES ->
  forallb strip_invariant (date_patterns config) = true.
Proof.
  intros [H | [H | [H | []]]]; injection H as _ <-; vm_compute; reflexivity.
Qed.

Lemma first_match_strip_witness :
  first_match (date_patterns de_config) (strip (u "  am 03.02.2024 "))
  = first_match (date_patterns de_config) (u "  am 03.02.2024 ").
Proof.
  apply (first_match_strip (date_patterns de_config) (u "  am 03.02.2024 ")).
  vm_compute. reflexivity.
Defined.


(* ===================================================================== *)
(** * Date extraction ([parse_date])                                      *)
(* ===================================================================== *)

(** A configuration outside the registry whose only date pattern is the
    word [date], and one whose pattern is a year followed by whitespace,
    [\d{4}\s]. *)
Definition word_config : LocaleConfig := {|
  code := u "xx";
  name := u "Custom";
  date_patterns := [Lit (u "date")];
  amount_patterns := [];
  decimal_separator := u ".";
  thousands_separator := u ",";
  keywords := []
|}.

Definition year_space_config : LocaleConfig := {|
  code := u "yy";
  name := u "Custom";
  date_patterns := [Cat d4 space];
  amount_patterns := [];
  decimal_separator := u ".";
  thousands_separator := u ",";
  keywords := []
|}.

(** C6, as stated, fails for configurations outside the registry: the
    text [no date here] is not null for every configuration, and a
    pattern that matches in the text is not tried on the text itself but
    on the text stripped of surrounding whitespace. *)
Lemma parse_date_claim_fails_on_custom_configs :
  parse_date (Some (u "no date here")) (u "xx") (Some word_config)
  = Ok (Some (u "date"))
  /\ (search (Cat d4 space) (u "2024 ") = Some (u "2024 ")
      /\ parse_date (Some (u "2024 ")) (u "yy") (Some year_space_config)
         = Ok None).
Proof.
  split; [| split]; vm_compute; reflexivity.
Qed.

(** The loop returns the match of the first pattern, in list order, that
    matches anywhere. *)
Lemma first_match_some (patterns : list regex) (text d : str) :
  first_match patterns text = Some d ->
  exists i pattern,
    nth_error patterns i = Some pattern
    /\ search pattern text = Some d
    /\ forall j earlier,
         j < i -> nth_error patterns j = Some earlier ->
         search earlier text = None.
Proof.
  induction patterns as [| p patterns IH]; simpl.
  - discriminate.
  - destruct (search p text) as [m |] eqn:Hp.
    + intros [= ->]. exists 0, p. repeat split; auto.
      intros j earlier Hj. lia.
    + intros H. destruct (IH H) as (i & pattern & Hnth & Hs & Hearlier).
      exists (S i), pattern. repeat split; auto.
      intros [| j] earlier Hj; simpl.
      * intros [= <-]. exact Hp.
      * intros Hn. apply (Hearlier j earlier); [lia | exact Hn].
Qed.

Lemma first_match_none (patterns : list regex) (text : str) :
  first_match patterns text = None
  <-> forall pattern, In pattern patterns -> search pattern text = None.
Proof.
  induction patterns as [| p patterns IH]; simpl.
  - split; [intros _ pattern [] | reflexivity].
  - destruct (search p text) as [m |] eqn:Hp.
    + split; [discriminate |].
      intros H. rewrite <- Hp. apply H. left. reflexivity.
    + rewrite IH. split.
      * intros H pattern [<- | Hin]; auto.
      * intros H pattern Hin. apply H. right. exact Hin.
Qed.

(** [r] is what trying [patterns] in list order on [text] gives: the
    leftmost match of the first pattern that matches anywhere, null when
    none matches. *)
Definition first_pattern_result (patterns : list regex) (text : str)
  (r : option str) : Prop :=
  (forall d, r = Some d ->
     exists i pattern,
       nth_error patterns i = Some pattern
       /\ search pattern text = Some d
       /\ forall j earlier,
            j < i -> nth_error patterns j = Some earlier ->
            search earlier text = None)
  /\ (r = None <->
      forall pattern, In pattern patterns -> search pattern text = None).

Lemma first_match_result (patterns : list regex) (text : str) :
  first_pattern_result patterns text (first_match patterns text).
Proof.
  split.
  - intros d. apply first_match_some.
  - apply first_match_none.
Qed.

(** C6, amended. For every text and every configuration of the registry
    (fr, de, en), the date patterns are tried strictly in list order and
    the result is the leftmost match of the first pattern that matches
    anywhere in the text, so an earlier-listed pattern wins even when a
    later one matches too, and even further left; the result is null
    exactly when no pattern matches.  For a configuration outside the
    registry the same holds with the text stripped of surrounding
    whitespace in place of the text.  A missing or empty text gives null.
    With the French configuration [Paid on 15/01/2024 thanks] gives
    [15/01/2024]; [no date here] gives null for each configuration of the
    registry. *)
Theorem parse_date_first_pattern_wins :
  (forall locale locale_config,
      parse_date None locale locale_config = Ok None
      /\ parse_date (Some []) locale locale_config = Ok None)
  /\ (forall text locale config,
         text <> [] ->
         exists r,
           parse_date (Some text) locale (Some config) = Ok r
           /\ first_pattern_result (date_patterns config) (strip text) r)
  /\ (forall code config text locale,
         In (code, config) LOCALES ->
         exists r,
           parse_date (Some text) locale (Some config) = Ok r
           /\ first_pattern_result (date_patterns config) text r)
  /\ parse_date (Some (u "Paid on 15/01/2024 thanks")) (u "fr")
       (Some fr_config)
     = Ok (Some (u "15/01/2024"))
  /\ (search date_dot (u "01.02.2024 puis 15/01/2024")
      = Some (u "01.02.2024")
      /\ parse_date (Some (u "01.02.2024 puis 15/01/2024")) (u "fr")
           (Some fr_config)
         = Ok (Some (u "15/01/2024")))
  /\ (forall code config,
         In (code, config) LOCALES ->
         parse_date (Some (u "no date here")) code (Some config) = Ok None).
Proof.
  split; [| split; [| split; [| split; [| split]]]].
  - intros locale locale_config. split; reflexivity.
  - intros [| c text] locale config Hne; [congruence |].
    exists (first_match (date_patterns config) (strip (c :: text))).
    split; [reflexivity | apply first_match_result].
  - intros code config text locale Hin.
    pose proof (registry_date_patterns code config Hin) as Hok.
    exists (first_match (date_patterns config) text).
    split; [| apply first_match_result].
    destruct text as [| c text].
    + simpl. rewrite (first_match_nil _ Hok). reflexivity.
    + unfold parse_date, config_or_lookup. cbn [bind].
      rewrite (first_match_strip _ _ Hok). reflexivity.
  - vm_compute. reflexivity.
  - split; vm_compute; reflexivity.
  - intros code config [H | [H | [H | []]]]; injection H as <- <-;
      vm_compute; reflexivity.
Qed.

(** A text with surrounding whitespace and a month name. *)
Lemma parse_date_first_pattern_wins_witness :
  exists r,
    parse_date (Some (u " le 3 mars 2024 ")) (u "fr") (Some fr_config) = Ok r
    /\ first_pattern_result (date_patterns fr_config)
         (u " le 3 mars 2024 ") r.
Proof.
  apply (proj1 (proj2 (proj2 parse_date_first_pattern_wins))
           (u "fr") fr_config (u " le 3 mars 2024 ") (u "fr")).
  left. reflexivity.
Defined.

(* ===================================================================== *)
(** * Batch processing and the command line                               *)
(* ===================================================================== *)


(** ** Names of the written files *)

Definition dot_free (s : str) : Prop := Forall (fun c => c <> 46%N) s.

Lemma rfind_dot_none (s : str) : dot_free s -> rfind_dot s = None.
Proof.
  induction 1 as [| c s Hc _ IH]; simpl.
  - reflexivity.
  - rewrite IH. destruct (N.eqb_spec c 46); [contradiction | reflexivity].
Qed.




Lemma path_suffix_dot_free (s : str) : dot_free s -> path_suffix s = [].
Proof.
  intros H. unfold path_suffix, suffix_index.
  rewrite (rfind_dot_none s H). reflexivity.
Qed.


Lemma str_eqb_eq (a b : str) : str_eqb a b = true <-> a = b.
Proof.
  unfold str_eqb. destruct (list_eq_dec N.eq_dec a b); split; congruence.
Qed.

Lemma str_eqb_neq (a b : str) : a <> b -> str_eqb a b = false.
Proof.
  intros H. destruct (str_eqb a b) eqn:E; [| reflexivity].
  apply str_eqb_eq in E. contradiction.
Qed.





(** ** [process_directory] and [main] *)














(* ===================================================================== *)
(** * Further properties of [bank_statement_parser]                       *)
(* ===================================================================== *)

(** The transaction a row contributes, none when the row is skipped. *)
Definition row_transactions (filename : str) (r : row) : list Transaction :=
  match parse_row filename r with
  | Ok (Some tx) => [tx]
  | _ => []
  end.

(** The transactions a result holds. *)
Definition transactions_of (r : option (list Transaction))
  : list Transaction :=
  match r with Some txs => txs | None => [] end.

(** [pd.DataFrame(transactions)] or [None]. *)
Definition frame_or_none (txs : list Transaction)
  : option (list Transaction) :=
  match txs with [] => None | _ :: _ => Some txs end.

Definition row_ok (filename : str) (r : row) : Prop :=
  exists o, parse_row filename r = Ok o.

Lemma parse_row_raises_ValueError (filename : str) (r : row) (e : exn) :
  parse_row filename r = Raise e -> e = ValueError.
Proof.
  unfold parse_row.
  destruct (findall bank_date (row_str r)) as [| d ds];
    [discriminate |].
  destruct (rev (findall bank_amount (row_str r))) as [| a rest];
    [discriminate |].
  destruct (float (amount_repr a)) as [x | e'] eqn:Hf; simpl.
  - discriminate.
  - intros [= <-]. apply (float_raises_ValueError _ _ Hf).
Qed.

Lemma parse_row_fields (filename : str) (r : row) (tx : Transaction) :
  parse_row filename r = Ok (Some tx) ->
  Source tx = filename /\ Description tx = row_str r.
Proof.
  unfold parse_row.
  destruct (findall bank_date (row_str r)) as [| d ds];
    [discriminate |].
  destruct (rev (findall bank_amount (row_str r))) as [| a rest];
    [discriminate |].
  destruct (float (amount_repr a)) as [x | e']; simpl; [| discriminate].
  intros [= <-]. split; reflexivity.
Qed.

(** The loop, when no row raises. *)
Lemma parse_rows_all_ok (filename : str) (rows : list row) :
  Forall (row_ok filename) rows ->
  forall acc,
    parse_rows filename rows acc
    = Ok (acc ++ flat_map (row_transactions filename) rows).
Proof.
  induction 1 as [| r rows [o Hr] _ IH]; intros acc; simpl.
  - rewrite app_nil_r. reflexivity.
  - unfold row_transactions at 1. rewrite Hr. cbn [bind].
    rewrite IH. destruct o as [tx |].
    + rewrite <- app_assoc. reflexivity.
    + reflexivity.
Qed.

(** The loop stops at the first row that raises. *)
Lemma parse_rows_first_raise (filename : str) (pre : list row) (r : row)
  (post : list row) (e : exn) :
  Forall (row_ok filename) pre -> parse_row filename r = Raise e ->
  forall acc, parse_rows filename (pre ++ r :: post) acc = Raise e.
Proof.
  induction 1 as [| r0 pre [o Hr0] _ IH]; intros Hr acc; simpl.
  - rewrite Hr. reflexivity.
  - rewrite Hr0. cbn [bind]. apply IH. exact Hr.
Qed.

(** Every table either has a first raising row or none at all. *)
Lemma rows_ok_or_first_raise (filename : str) (rows : list row) :
  Forall (row_ok filename) rows
  \/ exists pre r post e,
       rows = pre ++ r :: post
       /\ Forall (row_ok filename) pre
       /\ parse_row filename r = Raise e.
Proof.
  induction rows as [| r rows IH].
  - left. constructor.
  - destruct (parse_row filename r) as [o | e] eqn:Hr.
    + destruct IH as [Hall | (pre & r' & post & e & -> & Hpre & Hr')].
      * left. constructor; [exists o; exact Hr | exact Hall].
      * right. exists (r :: pre), r', post, e.
        repeat split; [constructor; [exists o; exact Hr | exact Hpre] | exact Hr'].
    + right. exists [], r, rows, e. repeat split; [constructor | exact Hr].
Qed.

(** When the parser returns, its transactions are those of the rows, one
    for each contributing row and in row order; each carries the file
    name as [Source] and the joined text of its row as [Description]; a
    returned frame is never empty. *)
Theorem bank_statement_parser_in_row_order (df : DataFrame)
  (filename : str) (r : option (list Transaction)) :
  bank_statement_parser df filename = Ok r ->
  r = frame_or_none (flat_map (row_transactions filename) df)
  /\ List.length (transactions_of r) <= List.length df
  /\ Forall (fun tx => Source tx = filename
                       /\ exists row, In row df
                                      /\ Description tx = row_str row)
       (transactions_of r).
Proof.
  intros Hrun.
  destruct (rows_ok_or_first_raise filename df)
    as [Hall | (pre & r0 & post & e & -> & Hpre & Hr0)].
  2:{ unfold bank_statement_parser in Hrun.
      rewrite (parse_rows_first_raise filename pre r0 post e Hpre Hr0) in Hrun.
      discriminate. }
  unfold bank_statement_parser in Hrun.
  rewrite (parse_rows_all_ok filename df Hall) in Hrun. simpl in Hrun.
  set (txs := flat_map (row_transactions filename) df) in *.
  assert (Hr : r = frame_or_none txs).
  { destruct txs; injection Hrun as <-; reflexivity. }
  assert (Htx : transactions_of r = txs).
  { rewrite Hr. destruct txs; reflexivity. }
  split; [exact Hr |]. rewrite Htx. subst txs. clear. split.
  - induction df as [| row df IH]; simpl; [lia |].
    rewrite length_app. unfold row_transactions at 1.
    destruct (parse_row filename row) as [[tx |] | e]; simpl; lia.
  - apply Forall_flat_map. apply Forall_forall. intros row Hin.
    unfold row_transactions.
    destruct (parse_row filename row) as [[tx |] | e] eqn:Hrow;
      constructor; [| constructor].
    destruct (parse_row_fields filename row tx Hrow) as [Hs Hd].
    split; [exact Hs |]. exists row. split; [exact Hin | exact Hd].
Qed.

(** Three rows: a transaction, a header, a transaction. *)
Definition statement_table : DataFrame :=
  [[Some (u "15/01/2024"); Some (u "Grocery Store"); Some (u "45,50")];
   [Some (u "Date"); Some (u "Description"); Some (u "Amount")];
   [Some (u "16/01/2024"); None; Some (u "-120,00")]].

Lemma bank_statement_parser_in_row_order_witness :
  exists txs,
    bank_statement_parser statement_table (u "s.pdf") = Ok (Some txs)
    /\ map Date txs = [u "15/01/2024"; u "16/01/2024"]
    /\ Forall (fun tx => Source tx = u "s.pdf"
                         /\ exists row, In row statement_table
                                        /\ Description tx = row_str row) txs.
Proof.
  assert (Hrun : bank_statement_parser statement_table (u "s.pdf")
                 = Ok (Some [{| Date := u "15/01/2024";
                                Description := u "15/01/2024 Grocery Store 45,50";
                                Amount := lit 45.5;
                                Source := u "s.pdf" |};
                             {| Date := u "16/01/2024";
                                Description := u "16/01/2024 -120,00";
                                Amount := lit (-120);
                                Source := u "s.pdf" |}])).
  { vm_compute. reflexivity. }
  eexists. split; [exact Hrun |]. split; [reflexivity |].
  exact (proj2 (proj2 (bank_statement_parser_in_row_order
                         statement_table (u "s.pdf") _ Hrun))).
Defined.

(** The parser raises exactly when some row raises, and then with
    [ValueError]: one row whose amount text does not convert loses the
    transactions of every other row. *)
Theorem bank_statement_parser_raises_iff_a_row_raises (df : DataFrame)
  (filename : str) :
  (exists row e, In row df /\ parse_row filename row = Raise e)
  <-> bank_statement_parser df filename = Raise ValueError.
Proof.
  split.
  - intros (row & e & Hin & Hrow).
    destruct (rows_ok_or_first_raise filename df)
      as [Hall | (pre & r0 & post & e0 & -> & Hpre & Hr0)].
    + rewrite Forall_forall in Hall. destruct (Hall row Hin) as [o Ho].
      congruence.
    + unfold bank_statement_parser.
      rewrite (parse_rows_first_raise filename pre r0 post e0 Hpre Hr0).
      rewrite (parse_row_raises_ValueError filename r0 e0 Hr0). reflexivity.
  - intros Hrun.
    destruct (rows_ok_or_first_raise filename df)
      as [Hall | (pre & r0 & post & e0 & -> & Hpre & Hr0)].
    + unfold bank_statement_parser in Hrun.
      rewrite (parse_rows_all_ok filename df Hall) in Hrun. simpl in Hrun.
      destruct (flat_map (row_transactions filename) df); discriminate.
    + exists r0, e0. split; [| exact Hr0].
      apply in_or_app. right. left. reflexivity.
Qed.


(* ===================================================================== *)
(** * Further properties of the locale registry and its users             *)
(* ===================================================================== *)

(** In the registry every configuration is stored under its own code. *)
Lemma registry_lookup (key : str) :
  In key (map fst LOCALES) ->
  exists config, dict_lookup key LOCALES = Some config /\ code config = key.
Proof.
  intros [<- | [<- | [<- | []]]]; eexists; split; reflexivity.
Qed.

Lemma registry_lookup_code (key : str) (config : LocaleConfig) :
  dict_lookup key LOCALES = Some config ->
  code config = key /\ In key (map fst LOCALES).
Proof.
  intros H. apply dict_lookup_In in H.
  destruct H as [H | [H | [H | []]]]; injection H as <- <-;
    (split; [reflexivity | simpl; tauto]).
Qed.

Section DetectionAndRegistry.

Variable lower : str -> str.

(** Whatever the signals, the locale [detect_locale] returns for a
    detector the constructor built is a code of the registry, so
    [get_config] answers with the configuration stored under that very
    code and not with its fallback. *)
Theorem detect_locale_returns_registry_code (default : str)
  (self : LocaleDetector) (filename : str) (df : option DataFrame)
  (explicit_locale : option str) :
  LocaleDetector__init__ default = Ok self ->
  exists locale method config,
    detect_locale lower self filename df explicit_locale
    = Ok (locale, method)
    /\ dict_lookup locale LOCALES = Some config
    /\ code config = locale
    /\ get_config self locale = Ok config.
Proof.
  intros Hinit.
  destruct (init_inv _ _ Hinit) as (Hdef & _ & dconfig & Hdlook).
  assert (Hget : forall locale config,
             dict_lookup locale LOCALES = Some config ->
             get_config self locale = Ok config).
  { intros locale config Hl. unfold get_config, getitem, dict_get.
    rewrite Hdef, Hdlook, Hl. reflexivity. }
  assert (Hcode : forall (locale method : str),
             In locale (map fst LOCALES) ->
             exists locale' method' config,
               @Ok (str * str) (locale, method) = Ok (locale', method')
               /\ dict_lookup locale' LOCALES = Some config
               /\ code config = locale'
               /\ get_config self locale' = Ok config).
  { intros locale method Hin.
    destruct (registry_lookup locale Hin) as (config & Hl & Hc).
    exists locale, method, config. auto. }
  assert (Hdefault : In (default_locale self) (map fst LOCALES)).
  { rewrite Hdef. apply (registry_lookup_code _ _ Hdlook). }
  unfold detect_locale.
  match goal with
  | |- context [match ?x with Some e => Ok (e, _) | None => _ end] =>
      set (explicit := x)
  end.
  assert (Hexp : forall e, explicit = Some e -> In e (map fst LOCALES)).
  { subst explicit. destruct explicit_locale as [[| c e] |]; try discriminate.
    destruct (dict_lookup (c :: e) LOCALES) as [config |] eqn:Hl;
      [| discriminate].
    intros e' [= <-]. apply (registry_lookup_code _ _ Hl). }
  destruct explicit as [e |]; [apply Hcode, Hexp; reflexivity |].
  destruct (detect_from_filename lower filename) as [l |] eqn:Hfile.
  { pose proof (detect_from_filename_code lower filename l Hfile) as Hin.
    pose proof (registry_code_nonempty l Hin) as Hne.
    destruct l as [| c0 l]; [congruence |]. apply Hcode. exact Hin. }
  destruct df as [table |]; [| cbn [bind]; apply Hcode; exact Hdefault].
  destruct (detect_from_content_total lower self (Some table))
    as (found & confidence & -> & Hfound).
  cbn [bind]. destruct found as [l |];
    [| cbn [bind]; apply Hcode; exact Hdefault].
  pose proof (Hfound l eq_refl) as Hin.
  pose proof (registry_code_nonempty l Hin) as Hne.
  destruct l as [| c0 l]; [congruence |].
  cbn [bind]. apply Hcode. exact Hin.
Qed.

End DetectionAndRegistry.

Lemma detect_locale_returns_registry_code_witness :
  exists locale method config,
    detect_locale lower_latin1 de_detector (u "scan_0042.pdf")
      (Some table_without_transactions) (Some (u "it"))
    = Ok (locale, method)
    /\ dict_lookup locale LOCALES = Some config
    /\ code config = locale
    /\ get_config de_detector locale = Ok config.
Proof.
  exact (detect_locale_returns_registry_code lower_latin1 (u "de")
           de_detector (u "scan_0042.pdf") (Some table_without_transactions)
           (Some (u "it")) eq_refl).
Defined.

(** The codes [list_available_locales] lists are exactly the codes the
    constructor accepts as default, and for each listed code
    [get_config] returns the configuration with that code and the listed
    display name. *)
Theorem listed_locales_are_the_usable_ones :
  (forall key,
      (exists display, In (key, display) list_available_locales)
      <-> (exists self, LocaleDetector__init__ key = Ok self))
  /\ (forall default self key display,
         LocaleDetector__init__ default = Ok self ->
         In (key, display) list_available_locales ->
         exists config,
           get_config self key = Ok config
           /\ code config = key /\ name config = display).
Proof.
  split.
  - intros key. split.
    + intros [display Hin]. unfold LocaleDetector__init__.
      destruct Hin as [H | [H | [H | []]]]; injection H as <- _;
        eexists; reflexivity.
    + intros [self Hinit].
      destruct (init_inv _ _ Hinit) as (_ & _ & config & Hl).
      exists (name config). apply dict_lookup_In in Hl.
      apply (in_map (fun kv => (fst kv, name (snd kv)))) in Hl. exact Hl.
  - intros default self key display Hinit Hin.
    destruct (init_inv _ _ Hinit) as (Hdef & _ & dconfig & Hdl).
    unfold get_config, getitem, dict_get. rewrite Hdef, Hdl. cbn [bind].
    destruct Hin as [H | [H | [H | []]]]; injection H as <- <-;
      eexists; repeat split; reflexivity.
Qed.

Lemma listed_locales_are_the_usable_ones_witness :
  exists config,
    get_config de_detector (u "en") = Ok config
    /\ code config = u "en" /\ name config = u "English".
Proof.
  apply (proj2 listed_locales_are_the_usable_ones (u "de") de_detector
           (u "en") (u "English")).
  - reflexivity.
  - right. right. left. reflexivity.
Defined.

(** Called with a locale code instead of a configuration, [clean_amount]
    and [parse_date] use the registry entry of a known code and the
    French configuration for every unknown one; [get_config], asked for
    the same unknown code, answers with the detector's own default. *)
Theorem unknown_locale_fallbacks (text : option str) (locale : str) :
  (forall config,
      dict_lookup locale LOCALES = Some config ->
      clean_amount text locale None = clean_amount text locale (Some config)
      /\ parse_date text locale None = parse_date text locale (Some config))
  /\ (dict_lookup locale LOCALES = None ->
      clean_amount text locale None
      = clean_amount text locale (Some fr_config)
      /\ parse_date text locale None = parse_date text locale (Some fr_config)
      /\ forall default self d,
           LocaleDetector__init__ default = Ok self ->
           dict_lookup default LOCALES = Some d ->
           get_config self locale = Ok d).
Proof.
  split.
  - intros config Hl. unfold clean_amount, parse_date, config_or_lookup,
      getitem, dict_get.
    rewrite Hl. change (dict_lookup (u "fr") LOCALES) with (Some fr_config).
    split; reflexivity.
  - intros Hl. unfold clean_amount, parse_date, config_or_lookup,
      getitem, dict_get.
    rewrite Hl. change (dict_lookup (u "fr") LOCALES) with (Some fr_config).
    split; [reflexivity | split; [reflexivity |]].
    intros default self d Hinit Hd.
    destruct (init_inv _ _ Hinit) as (Hdef & _).
    unfold get_config, getitem, dict_get. rewrite Hdef, Hd, Hl. reflexivity.
Qed.

(** With a German detector and the unknown code [it], the German amount
    [1.234,56] is read by the configuration [get_config] returns, but as
    a bare locale code it is run through the French rules and rejected. *)
Lemma unknown_locale_fallbacks_witness :
  get_config de_detector (u "it") = Ok de_config
  /\ clean_amount (Some (u "1.234,56")) (u "it") (Some de_config)
     = Ok (Some (lit 1234.56))
  /\ clean_amount (Some (u "1.234,56")) (u "it") None = Ok None.
Proof.
  destruct (unknown_locale_fallbacks (Some (u "1.234,56")) (u "it"))
    as [_ Hunknown].
  destruct (Hunknown eq_refl) as (Hclean & _ & Hget).
  split; [exact (Hget (u "de") de_detector de_config eq_refl eq_refl) |].
  split; [vm_compute; reflexivity |].
  rewrite Hclean. vm_compute. reflexivity.
Defined.


(* ===================================================================== *)
(** * What a match is                                                     *)
(* ===================================================================== *)

(** The texts a pattern describes. *)
Inductive matches : regex -> str -> Prop :=
| matches_eps : matches Eps []
| matches_cls (p : char -> bool) (c : char) :
    p c = true -> matches (Cls p) [c]
| matches_cat (r1 r2 : regex) (s1 s2 : str) :
    matches r1 s1 -> matches r2 s2 -> matches (Cat r1 r2) (s1 ++ s2)
| matches_alt_l (r1 r2 : regex) (s : str) :
    matches r1 s -> matches (Alt r1 r2) s
| matches_alt_r (r1 r2 : regex) (s : str) :
    matches r2 s -> matches (Alt r1 r2) s
| matches_star_nil (r : regex) : matches (Star r) []
| matches_star_cons (r : regex) (s1 s2 : str) :
    matches r s1 -> matches (Star r) s2 -> matches (Star r) (s1 ++ s2).

(** [substring d s]: [d] occurs in [s] as a contiguous piece. *)
Definition substring (d s : str) : Prop := exists pre post, s = pre ++ d ++ post.

Lemma substring_refl (s : str) : substring s s.
Proof. exists [], []. rewrite app_nil_r. reflexivity. Qed.

Lemma substring_trans (a b c : str) : substring a b -> substring b c -> substring a c.
Proof.
  intros (p1 & q1 & ->) (p2 & q2 & ->).
  exists (p2 ++ p1), (q1 ++ q2). rewrite !app_assoc. reflexivity.
Qed.

Lemma substring_cons (d s : str) (c : char) : substring d s -> substring d (c :: s).
Proof. intros (p & q & ->). exists (c :: p), q. reflexivity. Qed.

Section MatcherSoundness.

Context {A : Type}.

(** A successful run read a text of the pattern and handed the rest to
    the continuation. *)
Definition sound_on (body : str -> (str -> option A) -> option A)
  (r : regex) : Prop :=
  forall s k a, body s k = Some a ->
    exists s1 s2, s = s1 ++ s2 /\ matches r s1 /\ k s2 = Some a.

Lemma star_loop_sound (body : str -> (str -> option A) -> option A)
  (r : regex) (k : str -> option A) :
  sound_on body r ->
  forall fuel s a, star_loop body k fuel s = Some a ->
    exists s1 s2, s = s1 ++ s2 /\ matches (Star r) s1 /\ k s2 = Some a.
Proof.
  intros Hbody. induction fuel as [| fuel IH]; intros s a; simpl.
  - intros Hk. exists [], s. repeat split; [constructor | exact Hk].
  - destruct (body s _) as [x |] eqn:Hb.
    + intros [= ->].
      apply Hbody in Hb. destruct Hb as (s1 & s2 & -> & Hm & Hrest).
      destruct (List.length s2 <? List.length (s1 ++ s2))%nat;
        [| discriminate].
      apply IH in Hrest. destruct Hrest as (t1 & t2 & -> & Hstar & Hk).
      exists (s1 ++ t1), t2. rewrite app_assoc.
      repeat split; [constructor; assumption | exact Hk].
    + intros Hk. exists [], s. repeat split; [constructor | exact Hk].
Qed.

End MatcherSoundness.

Lemma run_sound {A : Type} (r : regex) : sound_on (A := A) (run r) r.
Proof.
  induction r as [| p | r1 IH1 r2 IH2 | r1 IH1 r2 IH2 | r1 IH1];
    intros s k a; simpl.
  - intros Hk. exists [], s. repeat split; [constructor | exact Hk].
  - destruct s as [| c s]; [discriminate |].
    destruct (p c) eqn:Hp; [| discriminate].
    intros Hk. exists [c], s. repeat split; [constructor; exact Hp | exact Hk].
  - intros H. apply IH1 in H. destruct H as (s1 & s2 & -> & H1 & H).
    apply IH2 in H. destruct H as (t1 & t2 & -> & H2 & Hk).
    exists (s1 ++ t1), t2. rewrite app_assoc.
    repeat split; [constructor; assumption | exact Hk].
  - destruct (run r1 s k) as [x |] eqn:H1.
    + intros [= ->]. apply IH1 in H1.
      destruct H1 as (s1 & s2 & -> & Hm & Hk).
      exists s1, s2. repeat split; [apply matches_alt_l; exact Hm | exact Hk].
    + intros H2. apply IH2 in H2.
      destruct H2 as (s1 & s2 & -> & Hm & Hk).
      exists s1, s2. repeat split; [apply matches_alt_r; exact Hm | exact Hk].
  - apply star_loop_sound. exact IH1.
Qed.

Lemma consumed_app (m rest : str) : consumed (m ++ rest) rest = m.
Proof.
  unfold consumed. rewrite length_app.
  replace (List.length m + List.length rest - List.length rest)
    with (List.length m) by lia.
  rewrite firstn_app, Nat.sub_diag, firstn_all. simpl. apply app_nil_r.
Qed.

(** What [match_at] consumed is a text of the pattern at the start. *)
Lemma match_at_sound (r : regex) (s rest : str) :
  match_at r s = Some rest ->
  s = consumed s rest ++ rest /\ matches r (consumed s rest).
Proof.
  unfold match_at. intros H. apply run_sound in H.
  destruct H as (m & rest' & -> & Hm & [= ->]).
  rewrite consumed_app. split; [reflexivity | exact Hm].
Qed.

Lemma match_at_nonempty_sound (r : regex) (s rest : str) :
  match_at_nonempty r s = Some rest ->
  s = consumed s rest ++ rest /\ matches r (consumed s rest).
Proof.
  unfold match_at_nonempty. intros H. apply run_sound in H.
  destruct H as (m & rest' & -> & Hm & Hk).
  destruct (List.length rest' <? List.length (m ++ rest'))%nat;
    [| discriminate].
  injection Hk as ->.
  rewrite consumed_app. split; [reflexivity | exact Hm].
Qed.

(** [re.search] returns a substring of the text that the pattern describes. *)
Lemma search_sound (r : regex) (s d : str) :
  search r s = Some d -> substring d s /\ matches r d.
Proof.
  induction s as [| c s IH]; cbn [search].
  - destruct (match_at r []) as [rest |] eqn:Hm; [| discriminate].
    intros [= <-]. apply match_at_sound in Hm. destruct Hm as [Hs Hm].
    split; [| exact Hm]. exists [], rest. exact Hs.
  - destruct (match_at r (c :: s)) as [rest |] eqn:Hm.
    + intros [= <-]. apply match_at_sound in Hm. destruct Hm as [Hs Hm].
      split; [| exact Hm]. exists [], rest. exact Hs.
    + intros H. apply IH in H. destruct H as [Hp Hm'].
      split; [apply substring_cons; exact Hp | exact Hm'].
Qed.

(** Every hit of the scan is a substring of the text that the pattern
    describes. *)
Lemma scan_from_sound (r : regex) (s : str) :
  forall skip,
    Forall (fun p => match p with
                     | Hit m => substring m s /\ matches r m
                     | Gap _ => True
                     end) (scan_from r skip s).
Proof.
  induction s as [| c s IH]; intros skip; cbn [scan_from].
  - destruct skip; [| constructor].
    destruct (match_at r []) as [rest |] eqn:Hm; [| constructor].
    apply match_at_sound in Hm. destruct Hm as [Hs Hm].
    destruct rest; [| discriminate].
    constructor; [| constructor].
    split; [apply substring_refl |]. exact Hm.
  - assert (Hlift : forall l,
      Forall (fun p => match p with
                       | Hit m => substring m s /\ matches r m
                       | Gap _ => True
                       end) l ->
      Forall (fun p => match p with
                       | Hit m => substring m (c :: s) /\ matches r m
                       | Gap _ => True
                       end) l).
    { intros l. apply Forall_impl. intros [g | m]; [auto |].
      intros [Hp Hm]. split; [apply substring_cons; exact Hp | exact Hm]. }
    destruct skip as [| k]; [| apply Hlift, IH].
    destruct (match_at r (c :: s)) as [rest |] eqn:Hm.
    + apply match_at_sound in Hm. destruct Hm as [Hs Hm].
      assert (Hhit : substring (consumed (c :: s) rest) (c :: s)
                     /\ matches r (consumed (c :: s) rest)).
      { split; [exists [], rest; exact Hs | exact Hm]. }
      destruct (consumed (c :: s) rest) as [| m0 m] eqn:Hc.
      * constructor; [exact Hhit |].
        destruct (match_at_nonempty r (c :: s)) as [rest' |] eqn:Hm'.
        -- apply match_at_nonempty_sound in Hm'. destruct Hm' as [Hs' Hm'].
           constructor; [| apply Hlift, IH].
           split; [exists [], rest'; exact Hs' | exact Hm'].
        -- constructor; [exact I | apply Hlift, IH].
      * constructor; [exact Hhit | apply Hlift, IH].
    + constructor; [exact I | apply Hlift, IH].
Qed.

Lemma findall_sound (r : regex) (s : str) :
  Forall (fun m => substring m s /\ matches r m) (findall r s).
Proof.
  unfold findall, scan. apply Forall_flat_map.
  pose proof (scan_from_sound r s 0) as H.
  apply Forall_impl with (2 := H).
  intros [g | m] Hp; constructor; [exact Hp | constructor].
Qed.

(** ** Lengths of the texts of a pattern *)

Fixpoint min_len (r : regex) : nat :=
  match r with
  | Eps => 0
  | Cls _ => 1
  | Cat r1 r2 => min_len r1 + min_len r2
  | Alt r1 r2 => Nat.min (min_len r1) (min_len r2)
  | Star _ => 0
  end.

(** An upper bound, when there is no repetition. *)
Fixpoint max_len (r : regex) : option nat :=
  match r with
  | Eps => Some 0
  | Cls _ => Some 1
  | Cat r1 r2 =>
      match max_len r1, max_len r2 with
      | Some a, Some b => Some (a + b)
      | _, _ => None
      end
  | Alt r1 r2 =>
      match max_len r1, max_len r2 with
      | Some a, Some b => Some (Nat.max a b)
      | _, _ => None
      end
  | Star _ => None
  end.

Lemma matches_length (r : regex) (s : str) :
  matches r s ->
  min_len r <= List.length s
  /\ forall n, max_len r = Some n -> List.length s <= n.
Proof.
  induction 1 as [| p c Hp | r1 r2 s1 s2 _ [L1 U1] _ [L2 U2]
                  | r1 r2 s _ [L U] | r1 r2 s _ [L U]
                  | r | r s1 s2 _ _ _ _]; simpl.
  - split; [lia | intros n [= <-]; lia].
  - split; [lia | intros n [= <-]; lia].
  - rewrite length_app. split; [lia |].
    destruct (max_len r1) as [a |]; [| discriminate].
    destruct (max_len r2) as [b |]; [| discriminate].
    intros n [= <-]. specialize (U1 a eq_refl). specialize (U2 b eq_refl). lia.
  - split; [lia |].
    destruct (max_len r1) as [a |]; [| discriminate].
    destruct (max_len r2) as [b |]; [| discriminate].
    intros n [= <-]. specialize (U a eq_refl). lia.
  - split; [lia |].
    destruct (max_len r1) as [a |]; [| discriminate].
    destruct (max_len r2) as [b |]; [| discriminate].
    intros n [= <-]. specialize (U b eq_refl). lia.
  - split; [lia | discriminate].
  - split; [lia | discriminate].
Qed.


(* ===================================================================== *)
(** * What the extracted fields are made of                               *)
(* ===================================================================== *)

Lemma lstrip_suffix (s : str) : exists l, s = l ++ lstrip s.
Proof.
  induction s as [| c s [l IH]]; simpl.
  - exists []. reflexivity.
  - destruct (is_space c).
    + exists (c :: l). simpl. f_equal. exact IH.
    + exists []. reflexivity.
Qed.

Lemma strip_substring (s : str) : substring (strip s) s.
Proof.
  unfold strip, rstrip.
  destruct (lstrip_suffix s) as [l Hl].
  destruct (lstrip_suffix (rev (lstrip s))) as [r Hr].
  exists l, (rev r).
  rewrite <- rev_app_distr, <- Hr, rev_involutive. exact Hl.
Qed.

Lemma first_match_sound (patterns : list regex) (text d : str) :
  first_match patterns text = Some d ->
  substring d text /\ exists pattern, In pattern patterns /\ matches pattern d.
Proof.
  induction patterns as [| p ps IH]; simpl; [discriminate |].
  destruct (search p text) as [m |] eqn:Hs.
  - intros [= <-]. apply search_sound in Hs. destruct Hs as [Hsub Hm].
    split; [exact Hsub |]. exists p. split; [left; reflexivity | exact Hm].
  - intros H. apply IH in H. destruct H as [Hsub (q & Hin & Hm)].
    split; [exact Hsub |]. exists q. split; [right; exact Hin | exact Hm].
Qed.

(** Without an explicit configuration, the one used is one of the
    registry. *)
Lemma config_or_lookup_registry (locale : str) (config : LocaleConfig) :
  config_or_lookup locale None = Ok config ->
  In config [fr_config; de_config; en_config].
Proof.
  unfold config_or_lookup.
  change (getitem LOCALES (u "fr")) with (Ok fr_config).
  cbn [bind]. unfold dict_get.
  destruct (dict_lookup locale LOCALES) as [v |] eqn:Hl;
    intros [= <-]; [| left; reflexivity].
  apply dict_lookup_In in Hl.
  destruct Hl as [H | [H | [H | []]]]; injection H as _ <-; simpl; tauto.
Qed.

(** Every date pattern of the registry needs at least eight characters. *)
Lemma registry_date_min_len (config : LocaleConfig) (pattern : regex) :
  In config [fr_config; de_config; en_config] ->
  In pattern (date_patterns config) -> 8 <= min_len pattern.
Proof.
  assert (H : forallb (fun c => forallb (fun p => 8 <=? min_len p)
                                  (date_patterns c))
                [fr_config; de_config; en_config] = true)
    by (vm_compute; reflexivity).
  intros Hc Hp.
  rewrite forallb_forall in H. specialize (H config Hc).
  rewrite forallb_forall in H. specialize (H pattern Hp).
  apply Nat.leb_le. exact H.
Qed.

(** The date [parse_date] returns is copied from the text: it occurs in
    the text as it stands and is described by a date pattern of the
    configuration in use; nothing is reordered or padded, so the same day
    written in two ways gives two different results.  With the
    configurations of the registry it has at least eight characters. *)
Theorem parse_date_returns_text_verbatim (text : option str) (locale : str)
  (locale_config : option LocaleConfig) (d : str) :
  parse_date text locale locale_config = Ok (Some d) ->
  exists t config,
    text = Some t
    /\ config_or_lookup locale locale_config = Ok config
    /\ substring d t
    /\ (exists pattern, In pattern (date_patterns config) /\ matches pattern d)
    /\ (locale_config = None -> 8 <= List.length d).
Proof.
  destruct text as [[| c t] |]; simpl; try discriminate.
  destruct (config_or_lookup locale locale_config) as [config | e] eqn:Hc;
    cbn [bind]; [| discriminate].
  intros [= H]. apply first_match_sound in H.
  destruct H as [Hsub (p & Hin & Hm)].
  exists (c :: t), config.
  split; [reflexivity |]. split; [reflexivity |].
  split; [exact (substring_trans _ _ _ Hsub (strip_substring (c :: t))) |].
  split; [exists p; split; assumption |].
  intros ->. apply config_or_lookup_registry in Hc.
  pose proof (registry_date_min_len config p Hc Hin) as Hmin.
  apply matches_length in Hm. lia.
Qed.

(** "Paid on 5/1/2024 in Paris" gives [5/1/2024], not [05/01/2024]. *)
Lemma parse_date_returns_text_verbatim_witness :
  parse_date (Some (u "Paid on 5/1/2024 in Paris")) (u "fr") None
  = Ok (Some (u "5/1/2024"))
  /\ exists t config,
       Some (u "Paid on 5/1/2024 in Paris") = Some t
       /\ config_or_lookup (u "fr") None = Ok config
       /\ substring (u "5/1/2024") t
       /\ (exists pattern,
             In pattern (date_patterns config)
             /\ matches pattern (u "5/1/2024"))
       /\ (@None LocaleConfig = None -> 8 <= List.length (u "5/1/2024")).
Proof.
  split; [vm_compute; reflexivity |].
  apply (parse_date_returns_text_verbatim
           (Some (u "Paid on 5/1/2024 in Paris")) (u "fr") None
           (u "5/1/2024")).
  vm_compute. reflexivity.
Defined.




(* ===================================================================== *)
(** * Digits and the numbers [float] reads                                *)
(* ===================================================================== *)




Lemma ascii_digit_range (c : char) :
  is_ascii_digit c = true <-> (48 <= c <= 57)%N.
Proof.
  unfold is_ascii_digit. rewrite andb_true_iff, !N.leb_le. tauto.
Qed.

Lemma ascii_digit_not_space (c : char) :
  is_ascii_digit c = true -> is_ascii_space c = false.
Proof.
  rewrite ascii_digit_range. intros H. unfold is_ascii_space.
  destruct (N.leb_spec 9 c); destruct (N.leb_spec c 13);
    destruct (N.eqb_spec c 32); simpl; try reflexivity; lia.
Qed.

Lemma decimal_value_spec (c d : char) :
  decimal_value c = Some d ->
  exists z, In z nd_zeros /\ (z <= c < z + 10)%N /\ d = (c - z)%N.
Proof.
  unfold decimal_value.
  destruct (find _ nd_zeros) as [z |] eqn:Hf; [| discriminate].
  intros [= <-]. apply find_some in Hf. destruct Hf as [Hin Hz].
  apply andb_true_iff in Hz. destruct Hz as [H1 H2].
  apply N.leb_le in H1. apply N.ltb_lt in H2.
  exists z. repeat split; assumption.
Qed.


(** Below 127 the only decimal digits are [0] .. [9]. *)
Lemma decimal_below_127 (c : char) :
  is_decimal c = true -> (c < 127)%N -> is_ascii_digit c = true.
Proof.
  unfold is_decimal. destruct (decimal_value c) as [d |] eqn:Hd;
    [| discriminate].
  intros _ Hc. apply decimal_value_spec in Hd.
  destruct Hd as (z & Hin & Hz & _).
  assert (Hzs : forallb (fun z => (z =? 48) || (127 <=? z))%N nd_zeros = true)
    by (vm_compute; reflexivity).
  rewrite forallb_forall in Hzs. specialize (Hzs z Hin).
  apply orb_true_iff in Hzs. apply ascii_digit_range.
  destruct Hzs as [Hz48 | Hz127];
    [apply N.eqb_eq in Hz48 | apply N.leb_le in Hz127]; lia.
Qed.

Lemma decimal_not_space (c : char) :
  is_decimal c = true -> is_space c = false.
Proof.
  intros Hd. destruct (is_space c) eqn:Hs; [| reflexivity].
  apply is_space_listed in Hs.
  assert (H : forallb (fun c => negb (is_decimal c)) space_chars = true)
    by (vm_compute; reflexivity).
  rewrite forallb_forall in H. specialize (H c Hs).
  rewrite Hd in H. discriminate.
Qed.

(** *** Through the steps of [float] *)










Lemma take_sign_cases (s : str) :
  exists neg r,
    take_sign s = (neg, r) /\ (s = 43%N :: r \/ s = 45%N :: r \/ s = r).
Proof.
  destruct s as [| c0 s]; [exists false, []; simpl; auto |].
  destruct (N.eq_dec c0 43) as [-> | H43]; [exists false, s; simpl; auto |].
  destruct (N.eq_dec c0 45) as [-> | H45]; [exists true, s; simpl; auto |].
  exists false, (c0 :: s). split; [| auto].
  unfold take_sign. destruct c0 as [| p]; [reflexivity |].
  do 6 (destruct p as [p | p |]; try reflexivity);
    exfalso; solve [apply H43; reflexivity | apply H45; reflexivity].
Qed.


Lemma ascii_lower_digit (c : char) :
  is_ascii_digit c = true -> ascii_lower_char c = c.
Proof.
  rewrite ascii_digit_range. intros H. unfold ascii_lower_char.
  destruct (N.leb_spec 65 c); [lia | reflexivity].
Qed.





(** *** Through [str.replace], [str.strip] and [re.sub] *)

























(** *** [clean_amount] *)









(* ===================================================================== *)
(** * Ties between locales                                                *)
(* ===================================================================== *)

(** [max] with a key returns the first entry of maximal value: every
    entry before it is strictly smaller. *)
Lemma max_by_value_first (scores : list (str * Q)) (k : str) (v : Q) :
  max_by_value scores = Some (k, v) ->
  exists before after,
    scores = before ++ (k, v) :: after
    /\ Forall (fun kv => (snd kv < v)%Q) before
    /\ Forall (fun kv => (snd kv <= v)%Q) after.
Proof.
  destruct scores as [| first rest]; [discriminate |].
  unfold max_by_value.
  set (step := fun best kv : str * Q =>
                 if Qle_bool (snd kv) (snd best) then best else kv).
  assert (Hfold : forall rest before b after,
    Forall (fun kv => (snd kv < snd b)%Q) before ->
    Forall (fun kv => (snd kv <= snd b)%Q) after ->
    exists before' after',
      (before ++ b :: after) ++ rest
      = before' ++ fold_left step rest b :: after'
      /\ Forall (fun kv => (snd kv < snd (fold_left step rest b))%Q) before'
      /\ Forall (fun kv => (snd kv <= snd (fold_left step rest b))%Q) after').
  { clear. induction rest as [| kv rest IH]; intros before b after Hb Ha.
    - exists before, after. rewrite app_nil_r. repeat split; assumption.
    - cbn [fold_left]. unfold step at 2 4 6.
      destruct (Qle_bool (snd kv) (snd b)) eqn:Hle.
      + apply Qle_bool_iff in Hle.
        destruct (IH before b (after ++ [kv]) Hb) as (b' & a' & Heq & H1 & H2).
        { apply Forall_app. split; [exact Ha |]. constructor; [exact Hle |].
          constructor. }
        exists b', a'. split; [| split; assumption].
        rewrite <- Heq. repeat (rewrite <- app_assoc; cbn [app]). reflexivity.
      + assert (Hlt : (snd b < snd kv)%Q).
        { apply Qnot_le_lt. intros H. apply Qle_bool_iff in H. congruence. }
        destruct (IH (before ++ b :: after) kv []) as (b' & a' & Heq & H1 & H2).
        { apply Forall_app. split.
          - apply Forall_impl with (2 := Hb). intros x Hx.
            exact (Qlt_trans _ _ _ Hx Hlt).
          - constructor; [exact Hlt |].
            apply Forall_impl with (2 := Ha). intros x Hx.
            exact (Qle_lt_trans _ _ _ Hx Hlt). }
        { constructor. }
        exists b', a'. split; [| split; assumption].
        rewrite <- Heq. repeat (rewrite <- app_assoc; cbn [app]). reflexivity. }
  intros [= Hbest].
  destruct (Hfold rest [] first [] (Forall_nil _) (Forall_nil _))
    as (before & after & Heq & H1 & H2).
  rewrite Hbest in Heq, H1, H2. simpl in Heq, H1, H2.
  exists before, after. repeat split; assumption.
Qed.

Section Ties.

Variable lower : str -> str.

(** When content detection names a locale, that locale is the first one
    of the registry, in the order French, German, English, whose score is
    the maximum: every locale before it scores strictly less, every
    locale after it scores at most as much, and the score is at least the
    detector's threshold.  Two locales with the same score are decided in
    favour of the earlier one. *)
Theorem detect_from_content_first_maximum (self : LocaleDetector)
  (df : option DataFrame) (best : str) (confidence : Q) :
  detect_from_content lower self df = Ok (Some best, confidence) ->
  exists table before config after,
    df = Some table
    /\ LOCALES = before ++ (best, config) :: after
    /\ confidence = keyword_score lower config (content_text lower table)
    /\ (forall code' config', In (code', config') before ->
          (keyword_score lower config' (content_text lower table)
           < confidence)%Q)
    /\ (forall code' config', In (code', config') after ->
          (keyword_score lower config' (content_text lower table)
           <= confidence)%Q)
    /\ (_confidence_threshold self <= confidence)%Q.
Proof.
  unfold detect_from_content.
  destruct df as [table |]; [| discriminate].
  destruct (df_empty table); [discriminate |].
  destruct (content_text lower table) as [| c text] eqn:Htext;
    [discriminate |].
  rewrite locale_scores_LOCALES. cbn [bind].
  destruct (max_by_value _) as [[k v] |] eqn:Hmax; [| discriminate].
  destruct (Qle_bool (_confidence_threshold self) v) eqn:Hthr;
    [| discriminate].
  intros [= -> ->]. apply Qle_bool_iff in Hthr.
  apply max_by_value_first in Hmax.
  destruct Hmax as (before & after & Heq & Hb & Ha).
  exists table. rewrite Htext.
  set (score := fun config => keyword_score lower config (c :: text)) in *.
  assert (Hsplit : exists before' config after',
    LOCALES = before' ++ (best, config) :: after'
    /\ confidence = score config
    /\ before = map (fun kv => (fst kv, score (snd kv))) before'
    /\ after = map (fun kv => (fst kv, score (snd kv))) after').
  { destruct before as [| b1 [| b2 [| b3 before]]]; simpl in Heq.
    - injection Heq as Hk Hv Hafter. subst best confidence after.
      exists [], fr_config, [(u "de", de_config); (u "en", en_config)].
      split; [reflexivity | split; [reflexivity | split; reflexivity]].
    - injection Heq as Hb1 Hk Hv Hafter. subst b1 best confidence after.
      exists [(u "fr", fr_config)], de_config, [(u "en", en_config)].
      split; [reflexivity | split; [reflexivity | split; reflexivity]].
    - injection Heq as Hb1 Hb2 Hk Hv Hafter.
      subst b1 b2 best confidence after.
      exists [(u "fr", fr_config); (u "de", de_config)], en_config, [].
      split; [reflexivity | split; [reflexivity | split; reflexivity]].
    - injection Heq as _ _ _ Heq. destruct before; discriminate. }
  destruct Hsplit as (before' & config & after' & HL & Hc & -> & ->).
  exists before', config, after'.
  split; [reflexivity |]. split; [exact HL |]. split; [exact Hc |].
  split; [| split; [| exact Hthr]].
  - intros code' config' Hin. rewrite Forall_forall in Hb.
    apply (Hb (code', score config')).
    apply in_map_iff. exists (code', config'). split; [reflexivity | exact Hin].
  - intros code' config' Hin. rewrite Forall_forall in Ha.
    apply (Ha (code', score config')).
    apply in_map_iff. exists (code', config'). split; [reflexivity | exact Hin].
Qed.

End Ties.

(** A table with seven French and seven English keywords. *)
Definition tied_table : DataFrame :=
  [[Some (u "Balance credit debit transfer payment amount date")];
   [Some (u "solde virement montant facture mai juin")]].

(** French and English tie at 7/22 on that table; French is named. *)
Lemma detect_from_content_first_maximum_witness :
  detect_from_content lower_latin1 fr_detector (Some tied_table)
  = Ok (Some (u "fr"), (7 # 22)%Q)
  /\ keyword_score lower_latin1 en_config
       (content_text lower_latin1 tied_table) = (7 # 22)%Q
  /\ exists table before config after,
       Some tied_table = Some table
       /\ LOCALES = before ++ (u "fr", config) :: after
       /\ (7 # 22)%Q
          = keyword_score lower_latin1 config
              (content_text lower_latin1 table)
       /\ (forall code' config', In (code', config') before ->
             (keyword_score lower_latin1 config'
                (content_text lower_latin1 table) < 7 # 22)%Q)
       /\ (forall code' config', In (code', config') after ->
             (keyword_score lower_latin1 config'
                (content_text lower_latin1 table) <= 7 # 22)%Q)
       /\ (_confidence_threshold fr_detector <= 7 # 22)%Q.
Proof.
  split; [vm_compute; reflexivity |].
  split; [vm_compute; reflexivity |].
  apply (detect_from_content_first_maximum lower_latin1 fr_detector
           (Some tied_table) (u "fr") (7 # 22)%Q).
  vm_compute. reflexivity.
Defined.


(* ===================================================================== *)
(** * Rows the bank parser converts without error                         *)
(* ===================================================================== *)

(** A character that is no whitespace other than the plain space. *)
Definition plain_space_char (c : char) : bool :=
  negb (is_space c) || (c =? 32)%N.

(** A text whose only whitespace is the plain space U+0020. *)
Definition plain_spaces (s : str) : bool := forallb plain_space_char s.

Lemma join_in (c : char) (sep : str) (parts : list str) :
  In c (join sep parts) -> In c sep \/ exists p, In p parts /\ In c p.
Proof.
  induction parts as [| p parts IH]; [intros [] |].
  destruct parts as [| p' parts].
  - intros H. right. exists p. split; [left; reflexivity | exact H].
  - change (join sep (p :: p' :: parts))
      with (p ++ sep ++ join sep (p' :: parts)).
    intros H. apply in_app_or in H. destruct H as [H | H].
    + right. exists p. split; [left; reflexivity | exact H].
    + apply in_app_or in H. destruct H as [H | H]; [left; exact H |].
      destruct (IH H) as [Hs | (q & Hq & Hc)]; [left; exact Hs |].
      right. exists q. split; [right; exact Hq | exact Hc].
Qed.

Lemma row_str_plain (r : row) :
  forallb plain_spaces (present r) = true -> plain_spaces (row_str r) = true.
Proof.
  intros H. unfold plain_spaces. apply forallb_forall. intros c Hin.
  unfold row_str in Hin. apply join_in in Hin.
  destruct Hin as [Hin | (p & Hp & Hin)].
  - vm_compute in Hin. destruct Hin as [<- | []]. reflexivity.
  - rewrite forallb_forall in H. specialize (H p Hp).
    unfold plain_spaces in H. rewrite forallb_forall in H. exact (H c Hin).
Qed.

Lemma substring_in (d s : str) (c : char) : substring d s -> In c d -> In c s.
Proof.
  intros (pre & post & ->) H. apply in_or_app. right.
  apply in_or_app. left. exact H.
Qed.

(** *** The shape of an amount match *)

Lemma matches_star_cls (p : char -> bool) (s : str) :
  matches (Star (Cls p)) s -> forallb p s = true.
Proof.
  remember (Star (Cls p)) as r eqn:Hr. intros H.
  induction H as [| | | | | r0 | r0 s1 s2 H1 _ H2 IH2]; try discriminate.
  - reflexivity.
  - injection Hr as ->. specialize (IH2 eq_refl).
    inversion H1 as [| p0 c Hc | | | | |]; subst.
    simpl. rewrite Hc, IH2. reflexivity.
Qed.

Lemma matches_Cls_inv (p : char -> bool) (s : str) :
  matches (Cls p) s -> exists c, s = [c] /\ p c = true.
Proof.
  intros H. inversion H as [| p0 c Hc | | | | |]; subst.
  exists c. split; [reflexivity | exact Hc].
Qed.

Lemma matches_Cat_inv (r1 r2 : regex) (s : str) :
  matches (Cat r1 r2) s ->
  exists s1 s2, s = s1 ++ s2 /\ matches r1 s1 /\ matches r2 s2.
Proof.
  intros H. inversion H as [| | a b s1 s2 H1 H2 | | | |]; subst.
  exists s1, s2. repeat split; assumption.
Qed.

(** [[+-]?\s*\d+[,\s]\d{2}]: an optional sign, whitespace, digits, a
    comma or one whitespace character, two digits. *)
Lemma bank_amount_shape (a : str) :
  matches bank_amount a ->
  exists sg ws d0 ds sep d1 d2,
    a = sg ++ ws ++ (d0 :: ds) ++ sep :: [d1; d2]
    /\ (sg = [] \/ sg = [43%N] \/ sg = [45%N])
    /\ forallb is_space ws = true
    /\ forallb is_decimal (d0 :: ds) = true
    /\ ((sep =? 44)%N || is_space sep = true)
    /\ is_decimal d1 = true /\ is_decimal d2 = true.
Proof.
  unfold bank_amount. cbn [Seq]. unfold sign_ws, Plus, Opt, digit, space.
  cbn [Rep]. intros H.
  apply matches_Cat_inv in H. destruct H as (s1 & r1 & -> & Hsign & H).
  apply matches_Cat_inv in H. destruct H as (s2 & r2 & -> & Hdigits & H).
  apply matches_Cat_inv in H. destruct H as (s3 & r3 & -> & Hsep & H).
  apply matches_Cat_inv in H. destruct H as (s4 & r4 & -> & Hd1 & H).
  apply matches_Cat_inv in H. destruct H as (s5 & r5 & -> & Hd2 & H).
  inversion H; subst. clear H.
  apply matches_Cat_inv in Hsign. destruct Hsign as (sg & ws & -> & Hsg & Hws).
  apply matches_star_cls in Hws.
  apply matches_Cat_inv in Hdigits. destruct Hdigits as (x & ds & -> & Hd0 & Hds).
  apply matches_Cls_inv in Hd0. destruct Hd0 as (d0 & -> & Hd0).
  apply matches_star_cls in Hds.
  apply matches_Cls_inv in Hsep. destruct Hsep as (sep & -> & Hsep).
  apply matches_Cls_inv in Hd1. destruct Hd1 as (d1 & -> & Hd1).
  apply matches_Cls_inv in Hd2. destruct Hd2 as (d2 & -> & Hd2).
  exists sg, ws, d0, ds, sep, d1, d2.
  split; [rewrite <- !app_assoc; reflexivity |].
  split.
  { inversion Hsg as [| | | a b s Hl | a b s Hr | |]; subst.
    - apply matches_Cls_inv in Hl. destruct Hl as (c & -> & Hc).
      apply existsb_exists in Hc. destruct Hc as (y & Hy & Heq).
      apply N.eqb_eq in Heq. subst y. vm_compute in Hy.
      destruct Hy as [<- | [<- | []]]; tauto.
    - inversion Hr. tauto. }
  split; [exact Hws |].
  split; [simpl; rewrite Hd0, Hds; reflexivity |].
  split; [exact Hsep |]. split; assumption.
Qed.

(** *** The text handed to [float] *)

(** What replacing the one-character text [o] makes of a character. *)
Definition replace_char (o : char) (new : str) (c : char) : str :=
  if (o =? c)%N then new else [c].

Lemma replace_single (o : char) (new s : str) :
  replace [o] new s = flat_map (replace_char o new) s.
Proof.
  unfold replace, replace_char. induction s as [| c s IH]; [reflexivity |].
  cbn [replace_from flat_map startswith List.length].
  rewrite andb_true_r, Nat.sub_diag.
  destruct (o =? c)%N; rewrite IH; reflexivity.
Qed.

Lemma flat_map_unchanged (f : char -> str) (s : str) :
  (forall c, In c s -> f c = [c]) -> flat_map f s = s.
Proof.
  induction s as [| c s IH]; intros H; simpl; [reflexivity |].
  rewrite (H c) by (left; reflexivity). simpl. f_equal.
  apply IH. intros x Hx. apply H. right. exact Hx.
Qed.

Lemma flat_map_dropped (f : char -> str) (s : str) :
  (forall c, In c s -> f c = []) -> flat_map f s = [].
Proof.
  induction s as [| c s IH]; intros H; simpl; [reflexivity |].
  rewrite (H c) by (left; reflexivity). simpl.
  apply IH. intros x Hx. apply H. right. exact Hx.
Qed.

Lemma decimal_not_sep (c : char) :
  is_decimal c = true -> c <> 32%N /\ c <> 44%N.
Proof.
  intros H. split; intros ->; vm_compute in H; discriminate.
Qed.

(** With plain spaces only, the text handed to [float] is the sign, the
    digits, a point if the separator was a comma, and the two digits. *)
Lemma amount_repr_plain (sg ws ds : str) (sep d1 d2 : char) :
  (sg = [] \/ sg = [43%N] \/ sg = [45%N]) ->
  forallb is_space ws = true ->
  forallb is_decimal ds = true ->
  ((sep =? 44)%N || is_space sep = true) ->
  is_decimal d1 = true -> is_decimal d2 = true ->
  plain_spaces (sg ++ ws ++ ds ++ sep :: [d1; d2]) = true ->
  exists mid,
    (mid = [] \/ mid = [46%N])
    /\ amount_repr (sg ++ ws ++ ds ++ sep :: [d1; d2])
       = sg ++ ds ++ mid ++ [d1; d2].
Proof.
  intros Hsg Hws Hds Hsep Hd1 Hd2 Hplain.
  unfold amount_repr.
  change (u ",") with [44%N]. change (u ".") with [46%N].
  change (u " ") with [32%N].
  rewrite !replace_single.
  set (f1 := replace_char 32%N []).
  set (f2 := replace_char 44%N [46%N]).
  assert (Hkeep : forall s, forallb is_decimal s = true ->
                            flat_map f2 (flat_map f1 s) = s).
  { intros s Hs. rewrite forallb_forall in Hs.
    rewrite (flat_map_unchanged f1), (flat_map_unchanged f2);
      [reflexivity | |]; intros c Hc; specialize (Hs c Hc);
      destruct (decimal_not_sep c Hs) as [H32 H44];
      unfold f1, f2, replace_char.
    - destruct (N.eqb_spec 44 c); [congruence | reflexivity].
    - destruct (N.eqb_spec 32 c); [congruence | reflexivity]. }
  unfold plain_spaces in Hplain. rewrite forallb_forall in Hplain.
  assert (Hsgk : flat_map f2 (flat_map f1 sg) = sg).
  { destruct Hsg as [-> | [-> | ->]]; reflexivity. }
  assert (Hwsk : flat_map f1 ws = []).
  { apply flat_map_dropped. intros c Hc.
    assert (Hsp : is_space c = true).
    { rewrite forallb_forall in Hws. exact (Hws c Hc). }
    assert (Hp : plain_space_char c = true).
    { apply Hplain. apply in_or_app. right. apply in_or_app. left. exact Hc. }
    unfold plain_space_char in Hp. rewrite Hsp in Hp. simpl in Hp.
    apply N.eqb_eq in Hp. subst c. reflexivity. }
  assert (Hsepk : exists mid, (mid = [] \/ mid = [46%N])
                              /\ flat_map f2 (flat_map f1 [sep]) = mid).
  { apply orb_true_iff in Hsep. destruct Hsep as [Hsep | Hsep].
    - apply N.eqb_eq in Hsep. subst sep. exists [46%N].
      split; [right; reflexivity | reflexivity].
    - assert (Hp : plain_space_char sep = true).
      { apply Hplain. apply in_or_app. right. apply in_or_app. right.
        apply in_or_app. right. left. reflexivity. }
      unfold plain_space_char in Hp. rewrite Hsep in Hp. simpl in Hp.
      apply N.eqb_eq in Hp. subst sep. exists [].
      split; [left; reflexivity | reflexivity]. }
  destruct Hsepk as (mid & Hmid & Hsepk). exists mid.
  split; [exact Hmid |].
  change (sep :: [d1; d2]) with ([sep] ++ [d1; d2]).
  rewrite !flat_map_app. rewrite Hsgk, Hwsk, Hsepk.
  rewrite (Hkeep ds Hds).
  rewrite (Hkeep [d1; d2]) by (simpl; rewrite Hd1, Hd2; reflexivity).
  reflexivity.
Qed.


(** *** [float] on a sign, digits, an optional point and digits *)

Lemma to_ascii_decimal_app (a b : str) :
  to_ascii_decimal (a ++ b)
  = match to_ascii_decimal a, to_ascii_decimal b with
    | Some x, Some y => Some (x ++ y)
    | _, _ => None
    end.
Proof.
  induction a as [| c a IH]; cbn [to_ascii_decimal app].
  - destruct (to_ascii_decimal b); reflexivity.
  - rewrite IH.
    destruct (c <? 127)%N;
      [| destruct (is_space c); [| destruct (decimal_value c)]];
      destruct (to_ascii_decimal a); destruct (to_ascii_decimal b);
      reflexivity.
Qed.

(** Decimal digits of any script become ASCII digits, one for one. *)
Lemma to_ascii_decimal_digits (ds : str) :
  forallb is_decimal ds = true ->
  exists a, to_ascii_decimal ds = Some a
            /\ forallb is_ascii_digit a = true
            /\ List.length a = List.length ds.
Proof.
  induction ds as [| c ds IH]; cbn [forallb to_ascii_decimal].
  - intros _. exists []. repeat split.
  - intros H. apply andb_true_iff in H. destruct H as [Hc Hds].
    destruct (IH Hds) as (a & -> & Ha & Hlen). cbn [option_map].
    destruct (N.ltb_spec c 127) as [Hlt | Hge].
    + exists (c :: a). cbn [forallb List.length].
      rewrite (decimal_below_127 c Hc Hlt), Ha, Hlen. repeat split.
    + rewrite (decimal_not_space c Hc).
      unfold is_decimal in Hc.
      destruct (decimal_value c) as [d |] eqn:Hd; [| discriminate].
      apply decimal_value_spec in Hd. destruct Hd as (z & _ & Hz & ->).
      exists ((48 + (c - z))%N :: a). cbn [forallb List.length].
      rewrite Ha, Hlen.
      assert (Hdig : is_ascii_digit (48 + (c - z))%N = true)
        by (apply ascii_digit_range; lia).
      rewrite Hdig. repeat split.
Qed.

Lemma lstrip_ascii_id (t : str) :
  (forall c, In c t -> is_ascii_space c = false) -> lstrip_ascii t = t.
Proof.
  destruct t as [| c t]; [reflexivity |]. intros H. simpl.
  rewrite (H c) by (left; reflexivity). reflexivity.
Qed.

Lemma strip_ascii_id (t : str) :
  (forall c, In c t -> is_ascii_space c = false) -> strip_ascii t = t.
Proof.
  intros H. unfold strip_ascii. rewrite (lstrip_ascii_id t H).
  rewrite lstrip_ascii_id; [apply rev_involutive |].
  intros c Hc. apply H. rewrite in_rev. exact Hc.
Qed.

Lemma drop_underscores_id (t : str) :
  (forall c, In c t -> c <> 95%N) ->
  forall prev, prev <> 95%N -> drop_underscores prev t = Some t.
Proof.
  induction t as [| c t IH]; intros H prev Hprev; cbn [drop_underscores].
  - destruct (N.eqb_spec prev 95); [contradiction | reflexivity].
  - assert (Hc : c <> 95%N) by (apply H; left; reflexivity).
    destruct (N.eqb_spec c 95); [contradiction |].
    destruct (N.eqb_spec prev 95); [contradiction |]. cbn [andb].
    rewrite IH; [reflexivity | | exact Hc].
    intros x Hx. apply H. right. exact Hx.
Qed.

Lemma span_digits_app (a r : str) :
  forallb is_ascii_digit a = true ->
  span_digits (a ++ r)
  = (map (fun c => (c - 48)%N) a ++ fst (span_digits r),
     snd (span_digits r)).
Proof.
  induction a as [| c a IH]; cbn [forallb app map span_digits].
  - intros _. destruct (span_digits r); reflexivity.
  - intros H. apply andb_true_iff in H. destruct H as [Hc Ha].
    rewrite Hc, (IH Ha). reflexivity.
Qed.

Lemma span_digits_all (a : str) :
  forallb is_ascii_digit a = true ->
  span_digits a = (map (fun c => (c - 48)%N) a, []).
Proof.
  induction a as [| c a IH]; cbn [forallb map span_digits].
  - reflexivity.
  - intros H. apply andb_true_iff in H. destruct H as [Hc Ha].
    rewrite Hc, (IH Ha). reflexivity.
Qed.

Lemma parse_decimal_ok (a0 : char) (a mid a2 : str) :
  forallb is_ascii_digit (a0 :: a) = true ->
  forallb is_ascii_digit a2 = true ->
  (mid = [] \/ mid = [46%N]) ->
  exists q, parse_decimal ((a0 :: a) ++ mid ++ a2) = Some q.
Proof.
  intros Ha Ha2 [-> | ->]; unfold parse_decimal.
  - cbn [app]. change (a0 :: a ++ a2) with ((a0 :: a) ++ a2).
    rewrite span_digits_all by (rewrite forallb_app, Ha, Ha2; reflexivity).
    cbn [map app]. eexists. reflexivity.
  - match goal with
    | |- context [span_digits ((a0 :: a) ++ ?r)] =>
        rewrite (span_digits_app (a0 :: a) r Ha);
        change (span_digits r) with (@nil N, 46%N :: a2)
    end.
    cbn [fst snd]. rewrite (span_digits_all a2 Ha2).
    cbn [map app]. eexists. reflexivity.
Qed.

Lemma ascii_digit_head_not_word (a0 : char) (t w : str) :
  is_ascii_digit a0 = true ->
  In w [u "inf"; u "infinity"; u "nan"] ->
  str_eqb (map ascii_lower_char (a0 :: t)) w = false.
Proof.
  intros Ha Hw. apply str_eqb_neq. cbn [map].
  rewrite (ascii_lower_digit a0 Ha). apply ascii_digit_range in Ha.
  destruct Hw as [<- | [<- | [<- | []]]]; intros H; vm_compute in H;
    injection H as H _; lia.
Qed.

Lemma parse_float_body_ok (sg : str) (a0 : char) (a mid a2 : str) :
  (sg = [] \/ sg = [43%N] \/ sg = [45%N]) ->
  forallb is_ascii_digit (a0 :: a) = true ->
  forallb is_ascii_digit a2 = true ->
  (mid = [] \/ mid = [46%N]) ->
  exists q,
    parse_float_body (sg ++ (a0 :: a) ++ mid ++ a2) = Some (round_double q).
Proof.
  intros Hsg Ha Ha2 Hmid.
  assert (Ha0 : is_ascii_digit a0 = true).
  { cbn [forallb] in Ha. apply andb_true_iff in Ha. tauto. }
  assert (Hsign : exists neg,
    take_sign (sg ++ (a0 :: a) ++ mid ++ a2)
    = (neg, (a0 :: a) ++ mid ++ a2)).
  { destruct Hsg as [-> | [-> | ->]].
    - cbn [app].
      destruct (take_sign_cases (a0 :: a ++ mid ++ a2))
        as (neg & r & Hr & Hcase).
      apply ascii_digit_range in Ha0.
      destruct Hcase as [H | [H | H]].
      + injection H as H _. lia.
      + injection H as H _. lia.
      + exists neg. rewrite Hr, <- H. reflexivity.
    - exists false. reflexivity.
    - exists true. reflexivity. }
  destruct Hsign as [neg Hsign].
  destruct (parse_decimal_ok a0 a mid a2 Ha Ha2 Hmid) as [q Hq].
  unfold parse_float_body. rewrite Hsign.
  change ((a0 :: a) ++ mid ++ a2) with (a0 :: (a ++ mid ++ a2)) at 1 2 3.
  rewrite !(ascii_digit_head_not_word a0 _ _ Ha0) by (simpl; tauto).
  cbn [orb]. change (a0 :: (a ++ mid ++ a2)) with ((a0 :: a) ++ mid ++ a2).
  rewrite Hq. eexists. reflexivity.
Qed.

(** [float] converts a sign, decimal digits of any script, an optional
    point and further digits. *)
Lemma float_ok (sg ds mid : str) (d0 d1 d2 : char) :
  (sg = [] \/ sg = [43%N] \/ sg = [45%N]) ->
  forallb is_decimal (d0 :: ds) = true ->
  (mid = [] \/ mid = [46%N]) ->
  is_decimal d1 = true -> is_decimal d2 = true ->
  exists q, float (sg ++ (d0 :: ds) ++ mid ++ [d1; d2]) = Ok (round_double q).
Proof.
  intros Hsg Hds Hmid Hd1 Hd2.
  destruct (to_ascii_decimal_digits (d0 :: ds) Hds) as (a & Ha & Hdig & Hlen).
  destruct a as [| a0 a]; [discriminate |].
  assert (H12 : forallb is_decimal [d1; d2] = true)
    by (simpl; rewrite Hd1, Hd2; reflexivity).
  destruct (to_ascii_decimal_digits [d1; d2] H12) as (a2 & Ha2 & Hdig2 & _).
  assert (Hsg' : to_ascii_decimal sg = Some sg)
    by (destruct Hsg as [-> | [-> | ->]]; reflexivity).
  assert (Hmid' : to_ascii_decimal mid = Some mid)
    by (destruct Hmid as [-> | ->]; reflexivity).
  unfold float.
  rewrite !to_ascii_decimal_app, Hsg', Ha, Hmid', Ha2.
  assert (Hclean : forall c, In c (sg ++ (a0 :: a) ++ mid ++ a2) ->
                             is_ascii_space c = false /\ c <> 95%N).
  { assert (Hd : forall s c, forallb is_ascii_digit s = true -> In c s ->
                             is_ascii_space c = false /\ c <> 95%N).
    { intros s c Hs Hc. rewrite forallb_forall in Hs. specialize (Hs c Hc).
      split; [apply ascii_digit_not_space; exact Hs |].
      apply ascii_digit_range in Hs. lia. }
    intros c Hc. apply in_app_or in Hc. destruct Hc as [Hc | Hc].
    { destruct Hsg as [-> | [-> | ->]]; [destruct Hc | |];
        destruct Hc as [<- | []]; split; [reflexivity | lia
                                         | reflexivity | lia]. }
    apply in_app_or in Hc. destruct Hc as [Hc | Hc];
      [exact (Hd _ c Hdig Hc) |].
    apply in_app_or in Hc. destruct Hc as [Hc | Hc];
      [| exact (Hd _ c Hdig2 Hc)].
    destruct Hmid as [-> | ->]; [destruct Hc |].
    destruct Hc as [<- | []]. split; [reflexivity | lia]. }
  rewrite strip_ascii_id by (intros c Hc; apply (Hclean c Hc)).
  rewrite drop_underscores_id;
    [| intros c Hc; apply (Hclean c Hc) | lia].
  destruct (parse_float_body_ok sg a0 a mid a2 Hsg Hdig Hdig2 Hmid)
    as [q ->].
  exists q. reflexivity.
Qed.

(** A row whose only whitespace is the plain space is converted. *)
Lemma parse_row_plain (filename : str) (r : row) :
  plain_spaces (row_str r) = true -> row_ok filename r.
Proof.
  intros Hplain. unfold row_ok, parse_row.
  pose proof (findall_sound bank_amount (row_str r)) as Ha.
  destruct (findall bank_date (row_str r)) as [| d ds]; [eauto |].
  apply Forall_rev in Ha.
  destruct (rev (findall bank_amount (row_str r))) as [| a rest]; [eauto |].
  inversion Ha as [| ? ? [Hsub Hm] _]; subst.
  apply bank_amount_shape in Hm.
  destruct Hm as (sg & ws & d0 & dd & sep & d1 & d2
                  & -> & Hsg & Hws & Hdd & Hsep & Hd1 & Hd2).
  assert (Hpa : plain_spaces (sg ++ ws ++ (d0 :: dd) ++ sep :: [d1; d2])
                = true).
  { unfold plain_spaces in *. rewrite forallb_forall in *.
    intros c Hc. apply Hplain. exact (substring_in _ _ c Hsub Hc). }
  destruct (amount_repr_plain sg ws (d0 :: dd) sep d1 d2
              Hsg Hws Hdd Hsep Hd1 Hd2 Hpa) as (mid & Hmid & ->).
  match goal with
  | |- context [float ?t] =>
      destruct (float_ok sg dd mid d0 d1 d2 Hsg Hdd Hmid Hd1 Hd2
                : exists q, float t = Ok (round_double q)) as [q ->]
  end.
  cbn [bind]. eauto.
Qed.

(** Tabs, line breaks, no-break spaces and the other whitespace
    characters are the only way to make the bank parser fail: on a table
    none of whose cells holds a whitespace character other than the plain
    space, [bank_statement_parser] does not raise, whatever the digits
    and signs of the amounts, and returns the transactions of the rows. *)
Theorem bank_statement_parser_accepts_plain_spaces (df : DataFrame)
  (filename : str) :
  forallb (fun r => forallb plain_spaces (present r)) df = true ->
  bank_statement_parser df filename
  = Ok (frame_or_none (flat_map (row_transactions filename) df)).
Proof.
  intros H. unfold bank_statement_parser.
  rewrite (parse_rows_all_ok filename df).
  - cbn [bind app].
    destruct (flat_map (row_transactions filename) df); reflexivity.
  - apply Forall_forall. intros r Hr. apply parse_row_plain.
    apply row_str_plain. rewrite forallb_forall in H. exact (H r Hr).
Qed.

Lemma bank_statement_parser_accepts_plain_spaces_witness :
  bank_statement_parser statement_table (u "s.pdf")
  = Ok (frame_or_none
          (flat_map (row_transactions (u "s.pdf")) statement_table)).
Proof.
  apply (bank_statement_parser_accepts_plain_spaces statement_table
           (u "s.pdf")).
  vm_compute. reflexivity.
Defined.
